(** * books.py: sorting books by Library of Congress call number

    A shallow embedding of [src/books.py].  Python strings are lists of
    Unicode code points, [print] and exceptions are threaded through a small
    writer/error monad, and the regular expression of
    [Book.call_num_parse] is a term of a regex syntax interpreted by a
    backtracking matcher with the priorities of Python's [re] module. *)

From Stdlib Require Import String Ascii.
From Stdlib Require Import List NArith ZArith Bool Lia.
From Stdlib Require Import Permutation Sorted.
Import ListNotations.

(** ** Python values used by the program *)

Module Py.

(** A [str] is a sequence of code points. *)
Definition char := N.
Definition str := list char.

(** String literals of the source, written as Rocq strings (ASCII only). *)
Definition lit (s : string) : str := map N_of_ascii (list_ascii_of_string s).

Definition char_eqb (a b : char) : bool := N.eqb a b.

(** [a == b] on strings. *)
Fixpoint str_eqb (a b : str) : bool :=
  match a, b with
  | [], [] => true
  | x :: a', y :: b' => char_eqb x y && str_eqb a' b'
  | _, _ => false
  end.

(** [a < b] on strings: lexicographic on code points, a proper prefix first. *)
Fixpoint str_ltb (a b : str) : bool :=
  match a, b with
  | _, [] => false
  | [], _ :: _ => true
  | x :: a', y :: b' =>
      if N.ltb x y then true
      else if N.eqb x y then str_ltb a' b' else false
  end.

(** [str.isspace] on one code point; also the class [\s] of a [str]
    pattern and the set removed by [str.strip()]. *)
Definition isspace (c : char) : bool :=
  (N.leb 0x09 c && N.leb c 0x0D) || (N.leb 0x1C c && N.leb c 0x20)
  || N.eqb c 0x85 || N.eqb c 0xA0 || N.eqb c 0x1680
  || (N.leb 0x2000 c && N.leb c 0x200A)
  || N.eqb c 0x2028 || N.eqb c 0x2029 || N.eqb c 0x202F
  || N.eqb c 0x205F || N.eqb c 0x3000.

(** The runs of decimal digits (general category Nd) of Unicode 14.0, the
    database of CPython 3.11: (first, last) of each run; inside a run the
    digit value is the offset from [first] modulo ten. *)
Definition decimal_runs : list (N * N) :=
  [ (0x30, 0x39); (0x660, 0x669); (0x6F0, 0x6F9); (0x7C0, 0x7C9);
    (0x966, 0x96F); (0x9E6, 0x9EF); (0xA66, 0xA6F); (0xAE6, 0xAEF);
    (0xB66, 0xB6F); (0xBE6, 0xBEF); (0xC66, 0xC6F); (0xCE6, 0xCEF);
    (0xD66, 0xD6F); (0xDE6, 0xDEF); (0xE50, 0xE59); (0xED0, 0xED9);
    (0xF20, 0xF29); (0x1040, 0x1049); (0x1090, 0x1099); (0x17E0, 0x17E9);
    (0x1810, 0x1819); (0x1946, 0x194F); (0x19D0, 0x19D9); (0x1A80, 0x1A89);
    (0x1A90, 0x1A99); (0x1B50, 0x1B59); (0x1BB0, 0x1BB9); (0x1C40, 0x1C49);
    (0x1C50, 0x1C59); (0xA620, 0xA629); (0xA8D0, 0xA8D9); (0xA900, 0xA909);
    (0xA9D0, 0xA9D9); (0xA9F0, 0xA9F9); (0xAA50, 0xAA59); (0xABF0, 0xABF9);
    (0xFF10, 0xFF19); (0x104A0, 0x104A9); (0x10D30, 0x10D39);
    (0x11066, 0x1106F); (0x110F0, 0x110F9); (0x11136, 0x1113F);
    (0x111D0, 0x111D9); (0x112F0, 0x112F9); (0x11450, 0x11459);
    (0x114D0, 0x114D9); (0x11650, 0x11659); (0x116C0, 0x116C9);
    (0x11730, 0x11739); (0x118E0, 0x118E9); (0x11950, 0x11959);
    (0x11C50, 0x11C59); (0x11D50, 0x11D59); (0x11DA0, 0x11DA9);
    (0x16A60, 0x16A69); (0x16AC0, 0x16AC9); (0x16B50, 0x16B59);
    (0x1D7CE, 0x1D7FF); (0x1E140, 0x1E149); (0x1E2F0, 0x1E2F9);
    (0x1E950, 0x1E959); (0x1FBF0, 0x1FBF9) ]%N.

Fixpoint decimal_in (runs : list (N * N)) (c : char) : option N :=
  match runs with
  | [] => None
  | (lo, hi) :: runs' =>
      if N.leb lo c && N.leb c hi then Some (N.modulo (c - lo) 10)
      else decimal_in runs' c
  end.

(** [unicodedata.decimal]: the digit value of a decimal digit. *)
Definition decimal (c : char) : option N := decimal_in decimal_runs c.

(** [str.isdecimal] on one code point; also the class [\d] of a [str]
    pattern. *)
Definition isdecimal (c : char) : bool :=
  match decimal c with Some _ => true | None => false end.

(** The class [[A-Z]]. *)
Definition isupper_AZ (c : char) : bool := N.leb 0x41 c && N.leb c 0x5A.

Fixpoint lstrip (s : str) : str :=
  match s with
  | [] => []
  | c :: s' => if isspace c then lstrip s' else s
  end.

Definition rstrip (s : str) : str := rev (lstrip (rev s)).

(** [s.strip()] *)
Definition strip (s : str) : str := rstrip (lstrip s).

(** [s.replace(old, new)] for a one-character [old]. *)
Definition replace (old : char) (new : str) (s : str) : str :=
  flat_map (fun c => if char_eqb c old then new else [c]) s.
Arguments replace old%_N new s.

(** [sep.join(l)] *)
Fixpoint join (sep : str) (l : list str) : str :=
  match l with
  | [] => []
  | [x] => x
  | x :: l' => x ++ sep ++ join sep l'
  end.

(** [s.split(sep)] for a one-character [sep]: never empty, empty fields
    kept. *)
Fixpoint split (sep : char) (s : str) : list str :=
  match s with
  | [] => [[]]
  | c :: s' =>
      if char_eqb c sep then [] :: split sep s'
      else match split sep s' with
           | f :: fs => (c :: f) :: fs
           | [] => [[c]]
           end
  end.
Arguments split sep%_N s.

(** Truth value of an object that is [None] or a [str]. *)
Definition truthy (o : option str) : bool :=
  match o with
  | Some (_ :: _) => true
  | _ => false
  end.

(** *** Exceptions and standard output *)

Inductive exn := TypeError | AttributeError | IndexError | ValueError.

Inductive result (A : Type) :=
| Ok (a : A)
| Raise (e : exn).
Arguments Ok {A} a.
Arguments Raise {A} e.

(** A computation: the lines it printed, and its value or exception. *)
Definition M (A : Type) : Type := list str * result A.

Definition ret {A} (a : A) : M A := ([], Ok a).
Definition raise {A} (e : exn) : M A := ([], Raise e).
Definition print (s : str) : M unit := ([s], Ok tt).

Definition bind {A B} (m : M A) (f : A -> M B) : M B :=
  match m with
  | (out, Ok a) => let (out', r) := f a in (out ++ out', r)
  | (out, Raise e) => (out, Raise e)
  end.

Definition stdout {A} (m : M A) : list str := fst m.
Definition outcome {A} (m : M A) : result A := snd m.

(** [int(s)] on a string of decimal digits.  Python also accepts a sign,
    surrounding white space and single underscores; any other string raises
    [ValueError], and so does every string this model rejects that Python
    accepts, so a proof that [int] returns holds for Python as well. *)
Fixpoint int_from (acc : Z) (s : str) : option Z :=
  match s with
  | [] => Some acc
  | c :: s' =>
      match decimal c with
      | Some d => int_from (10 * acc + Z.of_N d) s'
      | None => None
      end
  end.

Definition int (s : str) : M Z :=
  match s with
  | [] => raise ValueError
  | _ => match int_from 0 s with
         | Some z => ret z
         | None => raise ValueError
         end
  end.

(** [l[i]] on a list. *)
Definition getitem {A} (l : list A) (i : nat) : M A :=
  match nth_error l i with
  | Some a => ret a
  | None => raise IndexError
  end.

Notation "x <- m ;; k" := (bind m (fun x => k))
  (at level 61, m at next level, right associativity).

(** [sorted(l)] for items compared by [lt] (their [__lt__]).  Python's sort
    is stable, uses nothing but [<], makes no comparison on fewer than two
    items and otherwise compares every item at least once, always as
    [later < earlier] between two neighbours being ordered.  The model is the
    stable insertion sort with these properties; an exception raised by a
    comparison ends the sort. *)
Section Sorted.
Context {A : Type} (lt : A -> A -> M bool).

Fixpoint insert (x : A) (l : list A) : M (list A) :=
  match l with
  | [] => ret [x]
  | y :: l' =>
      b <- lt y x ;;
      if b then (r <- insert x l' ;; ret (y :: r)) else ret (x :: y :: l')
  end.

Fixpoint sorted (l : list A) : M (list A) :=
  match l with
  | [] => ret []
  | x :: l' => s <- sorted l' ;; insert x s
  end.
End Sorted.

End Py.

Import Py.

(** ** The regular expressions of [re] that the pattern uses *)

Module Re.

Inductive charclass :=
| Upper   (* [A-Z] *)
| Space   (* \s *)
| Digit.  (* \d, [\d] *)

Definition in_class (cl : charclass) (c : char) : bool :=
  match cl with
  | Upper => isupper_AZ c
  | Space => isspace c
  | Digit => isdecimal c
  end.

Inductive regex :=
| Bol                                             (* ^ *)
| Eol                                             (* $ *)
| Lit (c : char)                                  (* an escaped character *)
| Rep (cl : charclass) (lo : nat) (hi : option nat) (* greedy {lo,hi} *)
| Cat (r1 r2 : regex)
| Opt (r : regex)                                 (* greedy ? *)
| Grp (name : string) (r : regex).                (* (?P<name>...) *)
Arguments Lit c%_N.

(** The groups that took part in the match, the latest binding first. *)
Definition groups := list (string * str).

Record state := mkState
  { pos : nat;        (* index into the subject string *)
    rest : str;       (* the subject from [pos] on *)
    marks : groups }.

Definition below (n : nat) (hi : option nat) : bool :=
  match hi with
  | Some h => Nat.ltb n h
  | None => true
  end.

(** Greedy repetition of a one-character class: take as many characters as
    the bounds allow, then give back one at a time while the rest of the
    pattern (the continuation [k]) fails. [n] counts the characters taken. *)
Fixpoint rep {A} (p : char -> bool) (lo : nat) (hi : option nat)
    (n : nat) (s : str) (k : nat -> str -> option A) : option A :=
  let stop := if Nat.leb lo n then k n s else None in
  match s with
  | c :: s' =>
      if p c && below n hi then
        match rep p lo hi (S n) s' k with
        | Some a => Some a
        | None => stop
        end
      else stop
  | [] => stop
  end.

(** Backtracking matcher in continuation-passing style: [k] is the rest of
    the pattern; the first alternative that lets [k] succeed wins. *)
Fixpoint exec {A} (r : regex) (st : state) (k : state -> option A) : option A :=
  match r with
  | Bol => if Nat.eqb (pos st) 0 then k st else None
  | Eol =>
      (* end of string, or just before a newline that ends the string *)
      match rest st with
      | [] => k st
      | [c] => if N.eqb c 0x0A then k st else None
      | _ => None
      end
  | Lit c =>
      match rest st with
      | x :: s' =>
          if char_eqb x c then k (mkState (S (pos st)) s' (marks st)) else None
      | [] => None
      end
  | Rep cl lo hi =>
      rep (in_class cl) lo hi 0 (rest st)
          (fun n s' => k (mkState (pos st + n) s' (marks st)))
  | Cat r1 r2 => exec r1 st (fun st1 => exec r2 st1 k)
  | Opt r1 =>
      match exec r1 st k with
      | Some a => Some a
      | None => k st
      end
  | Grp name r1 =>
      exec r1 st (fun st1 =>
        k (mkState (pos st1) (rest st1)
             ((name, firstn (pos st1 - pos st) (rest st)) :: marks st1)))
  end.

(** [re.match(pattern, s)]: the match object ([Some]) or [None]. *)
Definition re_match (r : regex) (s : str) : option groups :=
  exec r (mkState 0 s []) (fun st => Some (marks st)).

(** [m.group(name)]: [None] for a group that took no part in the match. *)
Fixpoint group (m : groups) (name : string) : option str :=
  match m with
  | [] => None
  | (n, v) :: m' => if String.eqb n name then Some v else group m' name
  end.

End Re.

Import Re.

Infix "+++" := Cat (at level 60, right associativity).

(** ** The program *)

Record Book := mkBook
  { callnum : str;
    title : str;
    author : str }.

(** The tuple [call_num_parse] returns.  Each component is what the
    source computes for it: [match.group] results are [None] or a string. *)
Record parts := mkParts
  { class1 : option str;
    subject : str;
    cutter : str;
    year : option str }.

Module Book.

(** [r"(?x)^(?P<class>[A-Z]+)(?P<subject>\s*\d{1,4}(?:\.\d{1,4})?\s*\.)\s*
      (?P<cutter>[A-Z]{1}[\d]+)\s*(?P<extracutter>[A-Z]{1}[\d]+)?\s*
      (?P<year>\d{4})?$"]
    (one line in the source; the verbose flag has nothing to skip). *)
Definition pattern : regex :=
  Bol
  +++ Grp "class" (Rep Upper 1 None)
  +++ Grp "subject"
        (Rep Space 0 None
         +++ Rep Digit 1 (Some 4)
         +++ Opt (Lit 0x2E +++ Rep Digit 1 (Some 4))
         +++ Rep Space 0 None
         +++ Lit 0x2E)
  +++ Rep Space 0 None
  +++ Grp "cutter" (Rep Upper 1 (Some 1) +++ Rep Digit 1 None)
  +++ Rep Space 0 None
  +++ Opt (Grp "extracutter" (Rep Upper 1 (Some 1) +++ Rep Digit 1 None))
  +++ Rep Space 0 None
  +++ Opt (Grp "year" (Rep Digit 4 (Some 4)))
  +++ Eol.

(** [o.strip()] where [o] is [None] or a string. *)
Definition strip_of (o : option str) : M str :=
  match o with
  | Some s => ret (strip s)
  | None => raise AttributeError
  end.

Definition call_num_parse (self : Book) : M (option parts) :=
  match re_match pattern (callnum self) with
  | Some m =>
      let class1 := group m "class" in
      subject <- strip_of (group m "subject") ;;
      cutter <- strip_of (group m "cutter") ;;
      extracutter <-
        (if truthy (group m "extracutter")
         then (e <- strip_of (group m "extracutter") ;; ret (Some e))
         else ret None) ;;
      let cutter :=
        match extracutter with
        | Some e => if truthy extracutter then join (lit " ") [cutter; e] else cutter
        | None => cutter
        end in
      let year := if truthy (group m "year") then group m "year" else None in
      ret (Some (mkParts class1 subject cutter year))
  | None =>
      _ <- print (lit "invalid call number") ;;
      ret None
  end.

(** [p[i]] where [p] is [None] or the tuple: all four components at once. *)
Definition subscript (p : option parts) : M parts :=
  match p with
  | Some t => ret t
  | None => raise TypeError
  end.

(** [o.replace(' ', '')] where [o] is [None] or a string. *)
Definition nospace_of (o : option str) : M str :=
  match o with
  | Some s => ret (replace 0x20 [] s)
  | None => raise AttributeError
  end.

(** [int(y) if y else None] *)
Definition year_of (y : option str) : M (option Z) :=
  if truthy y then
    match y with
    | Some s => v <- int s ;; ret (Some v)
    | None => ret None
    end
  else ret None.

Definition __lt__ (self other : Book) : M bool :=
  self_parts <- call_num_parse self ;;
  other_parts <- call_num_parse other ;;
  (* letter(s) at the beginning *)
  sp <- subscript self_parts ;;
  sc <- nospace_of (class1 sp) ;;
  op <- subscript other_parts ;;
  oc <- nospace_of (class1 op) ;;
  if negb (str_eqb sc oc) then ret (str_ltb sc oc)
  else
  (* number *)
  let ss := replace 0x20 [] (subject sp) in
  let os := replace 0x20 [] (subject op) in
  if negb (str_eqb ss os) then ret (str_ltb ss os)
  else
  (* cutter *)
  if negb (str_eqb (cutter sp) (cutter op)) then
    ret (str_ltb (cutter sp) (cutter op))
  else
  (* year *)
  self_year <- year_of (year sp) ;;
  other_year <- year_of (year op) ;;
  match self_year, other_year with
  | Some sy, Some oy => ret (Z.ltb sy oy)
  | Some _, None => ret false
  | None, Some _ => ret true
  | None, None => ret false
  end.

(** The f-string of [__repr__]: the call number, the title and the author,
    each between double quotes (U+0022), inside [Book(] ... [)]. *)
Definition __repr__ (self : Book) : str :=
  lit "Book(" ++ [0x22%N] ++ callnum self ++ [0x22%N] ++ lit ", " ++
  [0x22%N] ++ title self ++ [0x22%N] ++ lit ", " ++
  [0x22%N] ++ author self ++ [0x22%N] ++ lit ")".

End Book.

(** [read_books]: the open file is the list of its lines, as the [for] loop
    sees them. *)
Fixpoint read_lines (f : list str) (book_list : list Book) : M (list Book) :=
  match f with
  | [] => ret book_list
  | line :: f' =>
      let splitting := split 0x09 (strip line) in
      title <- getitem splitting 0 ;;
      author <- getitem splitting 1 ;;
      callnum <- getitem splitting 2 ;;
      read_lines f' (book_list ++ [mkBook callnum title author])
  end.

Definition read_books (f : list str) : M (list Book) := read_lines f [].

Fixpoint print_each (books : list Book) : M unit :=
  match books with
  | [] => ret tt
  | book :: books' => _ <- print (Book.__repr__ book) ;; print_each books'
  end.

Definition print_books (books : list Book) : M unit :=
  s <- sorted Book.__lt__ books ;; print_each s.

Definition main (f : list str) : M unit :=
  books <- read_books f ;; print_books books.

(** ** What the matcher computes

    [run r st st'] holds when [r] can match from [st] and end in [st'], in
    any of the ways the grammar allows; the matcher searches these ways in
    priority order and returns the first one its continuation accepts. *)

Definition upto (hi : option nat) (n : nat) : Prop :=
  match hi with
  | Some h => n <= h
  | None => True
  end.

Fixpoint run (r : regex) (st st' : state) : Prop :=
  match r with
  | Bol => pos st = 0 /\ st' = st
  | Eol => (rest st = [] \/ rest st = [0x0A%N]) /\ st' = st
  | Lit c =>
      exists s', rest st = c :: s' /\ st' = mkState (S (pos st)) s' (marks st)
  | Rep cl lo hi =>
      exists l s',
        rest st = l ++ s' /\ forallb (in_class cl) l = true /\
        lo <= length l /\ upto hi (length l) /\
        st' = mkState (pos st + length l) s' (marks st)
  | Cat r1 r2 => exists st1, run r1 st st1 /\ run r2 st1 st'
  | Opt r1 => run r1 st st' \/ st' = st
  | Grp name r1 =>
      exists st1,
        run r1 st st1 /\
        st' = mkState (pos st1) (rest st1)
                ((name, firstn (pos st1 - pos st) (rest st)) :: marks st1)
  end.

(** The strings the pattern [r] accepts under [re.match]. *)
Definition accepts (r : regex) (s : str) : Prop :=
  exists st', run r (mkState 0 s []) st'.

Definition outside_decimals (a b : N) : bool :=
  forallb (fun r => N.ltb b (fst r) || N.ltb (snd r) a) decimal_runs.

(** ** Strings built from the pieces of the grammar *)

(** The pieces of one call number, white space included. *)
Record callno := mkCallno
  { cn_class : str;
    cn_ws0 : str;            (* before the subject number *)
    cn_int : str;            (* digits before the fraction *)
    cn_frac : option str;    (* digits of the fraction *)
    cn_ws1 : str;            (* before the period that ends the subject *)
    cn_ws2 : str;
    cn_cutter : str;
    cn_ws3 : str;
    cn_extra : option str;
    cn_ws4 : str;
    cn_year : option str }.

Definition digits (lo hi : nat) (s : str) : bool :=
  forallb isdecimal s && Nat.leb lo (length s) && Nat.leb (length s) hi.

Definition is_cutter (s : str) : bool :=
  match s with
  | c :: d :: ds => isupper_AZ c && forallb isdecimal (d :: ds)
  | _ => false
  end.

Definition opt_ok {A} (p : A -> bool) (o : option A) : bool :=
  match o with
  | Some x => p x
  | None => true
  end.

Definition wf (c : callno) : bool :=
  match cn_class c with [] => false | _ => forallb isupper_AZ (cn_class c) end
  && forallb isspace (cn_ws0 c)
  && digits 1 4 (cn_int c)
  && opt_ok (digits 1 4) (cn_frac c)
  && forallb isspace (cn_ws1 c)
  && forallb isspace (cn_ws2 c)
  && is_cutter (cn_cutter c)
  && forallb isspace (cn_ws3 c)
  && opt_ok is_cutter (cn_extra c)
  && forallb isspace (cn_ws4 c)
  && opt_ok (digits 4 4) (cn_year c).

Definition opt_text (o : option str) : str :=
  match o with
  | Some s => s
  | None => []
  end.

Definition frac_text (o : option str) : str :=
  match o with
  | Some f => 0x2E%N :: f
  | None => []
  end.

(** The subject number with its period, as written. *)
Definition subject_text (c : callno) : str :=
  cn_int c ++ frac_text (cn_frac c) ++ cn_ws1 c ++ [0x2E%N].

(** The call number as written. *)
Definition text (c : callno) : str :=
  cn_class c ++ cn_ws0 c ++ subject_text c ++ cn_ws2 c ++ cn_cutter c ++
  cn_ws3 c ++ opt_text (cn_extra c) ++ cn_ws4 c ++ opt_text (cn_year c).

(** The pieces, normalised: what a parse that gives the pieces back returns. *)
Definition pieces (c : callno) : parts :=
  mkParts (Some (cn_class c))
          (subject_text c)
          (match cn_extra c with
           | Some e => cn_cutter c ++ [0x20%N] ++ e
           | None => cn_cutter c
           end)
          (cn_year c).

(** The groups of a match along the pieces [c]. *)
Definition groups_of (c : callno) : groups :=
  match cn_year c with Some y => [("year"%string, y)] | None => [] end ++
  match cn_extra c with Some e => [("extracutter"%string, e)] | None => [] end ++
  [("cutter"%string, cn_cutter c);
   ("subject"%string, cn_ws0 c ++ subject_text c);
   ("class"%string, cn_class c)].

(** ** Parts of the pattern, and what a part of a match consumes *)

Definition re_cutter : regex := Rep Upper 1 (Some 1) +++ Rep Digit 1 None.

Definition re_subject : regex :=
  Rep Space 0 None
  +++ Rep Digit 1 (Some 4)
  +++ Opt (Lit 0x2E +++ Rep Digit 1 (Some 4))
  +++ Rep Space 0 None
  +++ Lit 0x2E.

(** [st'] is [st] after the text [l], the groups untouched. *)
Definition eats (st : state) (l : str) (st' : state) : Prop :=
  rest st = l ++ rest st' /\ pos st' = pos st + length l /\
  marks st' = marks st.

(** [st'] is [st] after the text [l], recorded as group [name]. *)
Definition captures (name : string) (st : state) (l : str) (st' : state) : Prop :=
  rest st = l ++ rest st' /\ pos st' = pos st + length l /\
  marks st' = (name, l) :: marks st.

(** ** The comparison keys *)

(** One key of the ordering: a string, or the year (absent, or its
    number). *)
Inductive key :=
| KStr (s : str)
| KYear (y : option Z).

Definition key_eqb (a b : key) : bool :=
  match a, b with
  | KStr s, KStr t => str_eqb s t
  | KYear None, KYear None => true
  | KYear (Some x), KYear (Some y) => Z.eqb x y
  | _, _ => false
  end.

(** Strings in string order; a record without a year before one with a
    year, two years by their numbers. *)
Definition key_ltb (a b : key) : bool :=
  match a, b with
  | KStr s, KStr t => str_ltb s t
  | KYear (Some x), KYear (Some y) => Z.ltb x y
  | KYear None, KYear (Some _) => true
  | _, _ => false
  end.

(** Lexicographic comparison: the first pair of unequal keys decides. *)
Fixpoint lex_ltb (a b : list key) : bool :=
  match a, b with
  | x :: a', y :: b' => if key_eqb x y then lex_ltb a' b' else key_ltb x y
  | _, _ => false
  end.

(** [int(year)], when there is a year. *)
Definition year_value (y : option str) : option Z :=
  match y with
  | Some s => int_from 0 s
  | None => None
  end.

Definition class_text (p : parts) : str :=
  match class1 p with
  | Some s => s
  | None => []
  end.

(** The four keys of a parsed call number, [squeeze] being what is done to
    class and subject before they are compared. *)
Definition sort_keys (squeeze : str -> str) (p : parts) : list key :=
  [ KStr (squeeze (class_text p));
    KStr (squeeze (subject p));
    KStr (cutter p);
    KYear (year_value (year p)) ].

(** Every white-space character removed. *)
Definition remove_whitespace (s : str) : str :=
  filter (fun c => negb (isspace c)) s.

(** Every space character (U+0020) removed: [s.replace(' ', '')]. *)
Definition remove_spaces (s : str) : str := replace 0x20 [] s.

(** ** Books that match, and their order *)

(** [re.match] succeeds on the call number. *)
Definition matches (b : Book) : bool :=
  match re_match Book.pattern (callnum b) with
  | Some _ => true
  | None => false
  end.

(** The keys of a book, once its call number has been parsed. *)
Definition book_keys (b : Book) : list key :=
  match outcome (Book.call_num_parse b) with
  | Ok (Some p) => sort_keys remove_spaces p
  | _ => []
  end.

(** [a] is before [b] by the keys. *)
Definition before (a b : Book) : bool := lex_ltb (book_keys a) (book_keys b).

(** [v] is not before [u]: the order of two neighbours in a sorted list. *)
Definition not_after (u v : Book) : Prop := before v u = false.

(** ** Digits, lines and first choices *)

(** The digits [0-9]. *)
Definition isdigit_ascii (c : char) : bool := N.leb 0x30 c && N.leb c 0x39.

(** The tab-separated fields of a line, as [read_books] splits it. *)
Definition fields (line : str) : list str := split 0x09 (strip line).

(** The book made of the first three fields of a line. *)
Definition book_of_line (line : str) : Book :=
  mkBook (nth 2 (fields line) []) (nth 0 (fields line) [])
         (nth 1 (fields line) []).

(** The first character of [s] is in the class [p]. *)
Definition starts_with (p : char -> bool) (s : str) : bool :=
  match s with
  | c :: _ => p c
  | [] => false
  end.

(** [r], started on [l ++ s'], takes [l] and records the groups [g] as its
    first choice: if the rest of the pattern accepts what follows, that is
    the match. *)
Definition takes (r : regex) (l s' : str) (g : groups) : Prop :=
  forall A n m (k : state -> option A) a,
    k (mkState (n + length l) s' (g ++ m)) = Some a ->
    exec r (mkState n (l ++ s') m) k = Some a.

(** [r] cannot start on [s']. *)
Definition refuses (r : regex) (s' : str) : Prop :=
  forall A n m (k : state -> option A), exec r (mkState n s' m) k = None.

Definition re_year : regex := Grp "year" (Rep Digit 4 (Some 4)).

Definition re_tail : regex :=
  Rep Space 0 None
  +++ Opt (Grp "extracutter" re_cutter)
  +++ Rep Space 0 None
  +++ Opt re_year
  +++ Eol.

(** The white space that sets the year off from the cutter before it. *)
Definition before_year (c : callno) : str :=
  match cn_extra c with
  | Some _ => cn_ws4 c
  | None => cn_ws3 c ++ cn_ws4 c
  end.

(** A year, when there is one, has white space before it. *)
Definition year_set_off (c : callno) : bool :=
  match cn_year c, before_year c with
  | Some _, [] => false
  | _, _ => true
  end.

(** ** Further vocabulary: diagnostics, the grammar read as a relation *)

(** What [call_num_parse] prints for the call number of [b]. *)
Definition diags (b : Book) : list str :=
  if matches b then [] else [lit "invalid call number"].

(** [r] can match the text [l] in front of [s'] and record the groups [g]:
    one of the ways of [run], priorities left aside. *)
Definition spans (r : regex) (l s' : str) (g : groups) : Prop :=
  forall n m,
    run r (mkState n (l ++ s') m) (mkState (n + length l) s' (g ++ m)).

(** ** Further vocabulary: the file format *)

Definition is_tab (c : char) : bool := char_eqb c 0x09%N.

(** No tab in the string. *)
Definition no_tab (s : str) : bool := forallb (fun c => negb (is_tab c)) s.

(** The number of tabs in the string. *)
Definition tabs (s : str) : nat := length (filter is_tab s).

(** The line of the input file for a book:
    title, tab, author, tab, call number, newline. *)
Definition format_line (b : Book) : str :=
  title b ++ [0x09%N] ++ author b ++ [0x09%N] ++ callnum b ++ [0x0A%N].

(** The last character of [s], when there is one, is in the class [p]. *)
Definition ends_with (p : char -> bool) (s : str) : bool :=
  starts_with p (rev s).

(** The characters at which the iteration over a file opened in text mode
    ends a line: U+000A and U+000D (the latter alone or followed by U+000A,
    and read as U+000A). *)
Definition is_break (c : char) : bool :=
  char_eqb c 0x0A%N || char_eqb c 0x0D%N.

(** No line break in the string. *)
Definition no_break (s : str) : bool :=
  forallb (fun c => negb (is_break c)) s.

(** [l] is one line of a file as the loop over the file yields it: it ends
    with U+000A and holds no other line break. *)
Definition one_line (l : str) : bool :=
  match rev l with
  | c :: r => char_eqb c 0x0A%N && no_break (rev r)
  | [] => false
  end.

(** A book that [format_line] writes on one line from which it can be read
    back: no tab and no line break in a field, a title that starts with a
    character that is not white space and a call number that ends with
    one. *)
Definition writable (b : Book) : bool :=
  no_tab (title b) && no_tab (author b) && no_tab (callnum b)
  && no_break (title b) && no_break (author b) && no_break (callnum b)
  && starts_with (fun c => negb (isspace c)) (title b)
  && ends_with (fun c => negb (isspace c)) (callnum b).

(** Equality of two lists of keys. *)
Fixpoint keys_eqb (a b : list key) : bool :=
  match a, b with
  | [], [] => true
  | x :: a', y :: b' => key_eqb x y && keys_eqb a' b'
  | _, _ => false
  end.

(** The books of [l] whose keys are [k], in the order of [l]. *)
Definition with_keys (k : list key) (l : list Book) : list Book :=
  filter (fun b => keys_eqb k (book_keys b)) l.

(** No double quote (U+0022) in the string. *)
Definition no_quote (s : str) : bool :=
  forallb (fun c => negb (char_eqb c 0x22%N)) s.

(** * Proofs *)

Example parse_extracutter :
  Book.call_num_parse (mkBook (lit "QA76.73.C15 B73 2019") [] []) =
  ([], Ok (Some (mkParts (Some (lit "QA")) (lit "76.73.") (lit "C15 B73")
                         (Some (lit "2019"))))).
Proof. vm_compute. reflexivity. Qed.

Section Repetition.
Context {A : Type} (p : char -> bool) (lo : nat) (hi : option nat).
Implicit Types (k : nat -> str -> option A) (s l : str) (n : nat).

Lemma below_upto n : below n hi = true -> upto hi (S n).
Proof.
  unfold below, upto. destruct hi as [h|]; auto.
  intros H. apply Nat.ltb_lt in H. lia.
Qed.

Lemma rep_sound k s : forall n a,
  rep p lo hi n s k = Some a ->
  exists l s',
    s = l ++ s' /\ forallb p l = true /\ lo <= n + length l /\
    (l = [] \/ upto hi (n + length l)) /\ k (n + length l) s' = Some a.
Proof.
  induction s as [|c s IH]; intros n a H; simpl in H.
  - destruct (Nat.leb lo n) eqn:E; [|discriminate].
    apply Nat.leb_le in E. exists [], []. simpl.
    rewrite Nat.add_0_r. repeat split; auto.
  - assert (Hstop : (if Nat.leb lo n then k n (c :: s) else None) = Some a ->
              exists l s', c :: s = l ++ s' /\ forallb p l = true /\
                lo <= n + length l /\ (l = [] \/ upto hi (n + length l)) /\
                k (n + length l) s' = Some a).
    { intros H0. destruct (Nat.leb lo n) eqn:E; [|discriminate].
      apply Nat.leb_le in E. exists [], (c :: s). simpl.
      rewrite Nat.add_0_r. repeat split; auto. }
    destruct (p c && below n hi) eqn:Hc; [|auto].
    apply andb_true_iff in Hc. destruct Hc as [Hp Hb].
    destruct (rep p lo hi (S n) s k) as [a'|] eqn:Hr; [|auto].
    injection H as <-.
    destruct (IH _ _ Hr) as (l & s' & -> & Hl & Hlo & Hhi & Hk).
    exists (c :: l), s'. simpl. rewrite Hp, Hl.
    replace (n + S (length l)) with (S n + length l) by lia.
    repeat split; auto. right.
    destruct Hhi as [->|Hhi]; auto.
    simpl. rewrite Nat.add_0_r. now apply below_upto.
Qed.

Lemma rep_none k s : forall n,
  (forall l s', s = l ++ s' -> forallb p l = true -> lo <= n + length l ->
      (l = [] \/ upto hi (n + length l)) -> k (n + length l) s' = None) ->
  rep p lo hi n s k = None.
Proof.
  induction s as [|c s IH]; intros n H; simpl.
  - destruct (Nat.leb lo n) eqn:E; auto.
    apply Nat.leb_le in E.
    specialize (H [] []). simpl in H. rewrite Nat.add_0_r in H. auto.
  - assert (Hstop : (if Nat.leb lo n then k n (c :: s) else None) = None).
    { destruct (Nat.leb lo n) eqn:E; auto.
      apply Nat.leb_le in E.
      specialize (H [] (c :: s)). simpl in H. rewrite Nat.add_0_r in H. auto. }
    destruct (p c && below n hi) eqn:Hc; auto.
    apply andb_true_iff in Hc. destruct Hc as [Hp Hb].
    rewrite IH; auto.
    intros l s' -> Hl Hlo Hhi.
    specialize (H (c :: l) s'). simpl in H. rewrite Hp, Hl in H.
    replace (n + S (length l)) with (S n + length l) in H by lia.
    apply H; auto. right.
    destruct Hhi as [->|Hhi]; auto.
    simpl. rewrite Nat.add_0_r. now apply below_upto.
Qed.

Lemma rep_complete k s : forall n,
  rep p lo hi n s k = None ->
  forall l s', s = l ++ s' -> forallb p l = true -> lo <= n + length l ->
    (l = [] \/ upto hi (n + length l)) -> k (n + length l) s' = None.
Proof.
  induction s as [|c s IH]; intros n H l s' E Hl Hlo Hhi; simpl in H.
  - destruct l; [|discriminate]. simpl in *. subst s'.
    rewrite Nat.add_0_r in *. apply Nat.leb_le in Hlo.
    now rewrite Hlo in H.
  - destruct l as [|c' l]; simpl in *.
    + subst s'. rewrite Nat.add_0_r in *. apply Nat.leb_le in Hlo.
      rewrite Hlo in H.
      destruct (p c && below n hi); auto.
      destruct (rep p lo hi (S n) s k); [discriminate|auto].
    + injection E as <- ->.
      apply andb_true_iff in Hl. destruct Hl as [Hp Hl].
      replace (n + S (length l)) with (S n + length l) in * by lia.
      assert (Hb : below n hi = true).
      { destruct Hhi as [?|Hhi]; [discriminate|].
        unfold below, upto in *. destruct hi; auto. apply Nat.ltb_lt. lia. }
      rewrite Hp, Hb in H. simpl in H.
      destruct (rep p lo hi (S n) (l ++ s') k) eqn:Hr; [discriminate|].
      apply (IH _ Hr l s'); auto.
      destruct Hhi as [?|Hhi]; [discriminate|auto].
Qed.

(** The greedy choice: when the whole run [l] may be taken and the rest of
    the pattern accepts what follows, that is the match. *)
Lemma rep_greedy k s' a : forall l n,
  forallb p l = true ->
  upto hi (n + length l) ->
  lo <= n + length l ->
  k (n + length l) s' = Some a ->
  match s' with
  | c :: _ => p c && below (n + length l) hi = false
  | [] => True
  end ->
  rep p lo hi n (l ++ s') k = Some a.
Proof.
  induction l as [|c l IH]; intros n Hl Hhi Hlo Hk Hs'; simpl in *.
  - rewrite Nat.add_0_r in *.
    apply Nat.leb_le in Hlo.
    destruct s' as [|c s']; simpl; rewrite Hlo; auto.
    now rewrite Hs'.
  - apply andb_true_iff in Hl. destruct Hl as [Hp Hl].
    replace (n + S (length l)) with (S n + length l) in * by lia.
    assert (Hb : below n hi = true).
    { unfold below, upto in *. destruct hi; auto. apply Nat.ltb_lt. lia. }
    rewrite Hp, Hb. simpl. rewrite (IH (S n)); auto.
Qed.
End Repetition.

Lemma exec_sound (r : regex) : forall A (st : state) (k : state -> option A) a,
  exec r st k = Some a -> exists st', run r st st' /\ k st' = Some a.
Proof.
  induction r as [| |c|cl lo hi|r1 IH1 r2 IH2|r1 IH1|name r1 IH1];
    intros A st k a H; simpl in *.
  - destruct (Nat.eqb (pos st) 0) eqn:E; [|discriminate].
    apply Nat.eqb_eq in E. eauto.
  - destruct (rest st) as [|c [|c' s]] eqn:E; try discriminate.
    + exists st. auto.
    + destruct (N.eqb c 0x0A) eqn:Ec; [|discriminate].
      apply N.eqb_eq in Ec. subst c. exists st. auto.
  - destruct (rest st) as [|x s'] eqn:E; [discriminate|].
    destruct (char_eqb x c) eqn:Ec; [|discriminate].
    apply N.eqb_eq in Ec. subst x. eauto.
  - apply rep_sound in H.
    destruct H as (l & s' & E & Hl & Hlo & Hhi & Hk). simpl in *.
    eexists. split; [|exact Hk].
    exists l, s'. repeat split; auto.
    destruct Hhi as [->|Hhi]; auto.
    unfold upto. destruct hi; simpl; auto. lia.
  - apply IH1 in H. destruct H as (st1 & H1 & H).
    apply IH2 in H. destruct H as (st2 & H2 & H). eauto.
  - destruct (exec r1 st k) as [a'|] eqn:E.
    + injection H as <-. apply IH1 in E. destruct E as (st' & H1 & Hk). eauto.
    + eauto.
  - apply IH1 in H. destruct H as (st1 & H1 & Hk). eauto.
Qed.

Lemma exec_none (r : regex) : forall A (st : state) (k : state -> option A),
  (forall st', run r st st' -> k st' = None) -> exec r st k = None.
Proof.
  induction r as [| |c|cl lo hi|r1 IH1 r2 IH2|r1 IH1|name r1 IH1];
    intros A st k H; simpl in *.
  - destruct (Nat.eqb (pos st) 0) eqn:E; auto.
    apply Nat.eqb_eq in E. auto.
  - destruct (rest st) as [|c [|c' s]] eqn:E; auto.
    destruct (N.eqb c 0x0A) eqn:Ec; auto.
    apply N.eqb_eq in Ec. subst c. auto.
  - destruct (rest st) as [|x s'] eqn:E; auto.
    destruct (char_eqb x c) eqn:Ec; auto.
    apply N.eqb_eq in Ec. subst x. eauto.
  - apply rep_none. intros l s' E Hl Hlo Hhi. simpl in *.
    apply H. exists l, s'. repeat split; auto.
    destruct Hhi as [->|Hhi]; auto.
    unfold upto. destruct hi; simpl; auto. lia.
  - apply IH1. intros st1 H1. apply IH2. eauto.
  - rewrite IH1; auto.
  - apply IH1. intros st1 H1. apply H. eauto.
Qed.

Lemma exec_complete (r : regex) : forall A (st : state) (k : state -> option A),
  exec r st k = None -> forall st', run r st st' -> k st' = None.
Proof.
  induction r as [| |c|cl lo hi|r1 IH1 r2 IH2|r1 IH1|name r1 IH1];
    intros A st k H st' Hr; simpl in *.
  - destruct Hr as [E ->]. now rewrite E in H.
  - destruct Hr as [[E|E] ->]; now rewrite E in H.
  - destruct Hr as (s' & E & ->). rewrite E in H.
    unfold char_eqb in H. now rewrite N.eqb_refl in H.
  - destruct Hr as (l & s' & E & Hl & Hlo & Hhi & ->).
    apply (rep_complete _ _ _ _ _ _ H l s' E Hl); simpl; auto.
  - destruct Hr as (st1 & H1 & H2).
    apply (IH2 _ st1 k); auto.
    apply (IH1 _ st (fun st1 => exec r2 st1 k)); auto.
  - destruct (exec r1 st k) eqn:E; [discriminate|].
    destruct Hr as [Hr| ->]; eauto.
  - destruct Hr as (st1 & H1 & ->).
    apply (IH1 _ _ _ H _ H1).
Qed.

(** [re.match] finds a match exactly when the grammar has one, and the
    match it returns is one of the grammar's. *)
Lemma re_match_Some r s m :
  re_match r s = Some m ->
  exists st', run r (mkState 0 s []) st' /\ m = marks st'.
Proof.
  unfold re_match. intros H. apply exec_sound in H.
  destruct H as (st' & Hr & E). injection E as <-. eauto.
Qed.

Lemma re_match_None r s : re_match r s = None <-> ~ accepts r s.
Proof.
  unfold re_match, accepts. split.
  - intros H [st' Hr].
    pose proof (exec_complete _ _ _ _ H _ Hr) as E. discriminate.
  - intros H. apply exec_none. intros st' Hr. exfalso. eauto.
Qed.

(** ** Character classes *)

Lemma decimal_in_None runs a b c :
  forallb (fun r => N.ltb b (fst r) || N.ltb (snd r) a) runs = true ->
  (a <= c <= b)%N -> decimal_in runs c = None.
Proof.
  induction runs as [|[lo hi] runs IH]; simpl; auto.
  intros H Hc. apply andb_true_iff in H. destruct H as [H1 H2].
  rewrite IH by auto.
  destruct (N.leb lo c && N.leb c hi) eqn:E; auto.
  apply andb_true_iff in E. rewrite !N.leb_le in E.
  apply orb_true_iff in H1. rewrite !N.ltb_lt in H1. lia.
Qed.

Lemma not_decimal_between a b c :
  outside_decimals a b = true -> (a <= c <= b)%N -> isdecimal c = false.
Proof.
  intros H Hc. unfold isdecimal, decimal.
  now rewrite (decimal_in_None decimal_runs a b c H Hc).
Qed.

Lemma isspace_cases c :
  isspace c = true ->
  (0x09 <= c <= 0x0D)%N \/ (0x1C <= c <= 0x20)%N \/ c = 0x85%N \/
  c = 0xA0%N \/ c = 0x1680%N \/ (0x2000 <= c <= 0x200A)%N \/
  c = 0x2028%N \/ c = 0x2029%N \/ c = 0x202F%N \/ c = 0x205F%N \/
  c = 0x3000%N.
Proof.
  unfold isspace.
  rewrite !orb_true_iff, !andb_true_iff, !N.leb_le, !N.eqb_eq. tauto.
Qed.

Lemma space_not_decimal c : isspace c = true -> isdecimal c = false.
Proof.
  intros H. apply isspace_cases in H.
  repeat match goal with
         | H : _ \/ _ |- _ => destruct H as [H|H]
         end;
    try (subst c; vm_compute; reflexivity);
    match type of H with
    | (?a <= _ <= ?b)%N => apply (not_decimal_between a b); [vm_compute; reflexivity|exact H]
    end.
Qed.

Lemma upper_range c : isupper_AZ c = true <-> (0x41 <= c <= 0x5A)%N.
Proof. unfold isupper_AZ. now rewrite andb_true_iff, !N.leb_le. Qed.

Lemma upper_not_decimal c : isupper_AZ c = true -> isdecimal c = false.
Proof.
  intros H. apply upper_range in H.
  apply (not_decimal_between 0x41 0x5A); [vm_compute; reflexivity|exact H].
Qed.

Lemma upper_not_space c : isupper_AZ c = true -> isspace c = false.
Proof.
  intros H. apply upper_range in H.
  destruct (isspace c) eqn:E; auto.
  apply isspace_cases in E. lia.
Qed.

Lemma decimal_not_space c : isdecimal c = true -> isspace c = false.
Proof.
  intros H. destruct (isspace c) eqn:E; auto.
  apply space_not_decimal in E. congruence.
Qed.

Lemma decimal_not_upper c : isdecimal c = true -> isupper_AZ c = false.
Proof.
  intros H. destruct (isupper_AZ c) eqn:E; auto.
  apply upper_not_decimal in E. congruence.
Qed.

Lemma space_not_upper c : isspace c = true -> isupper_AZ c = false.
Proof.
  intros H. destruct (isupper_AZ c) eqn:E; auto.
  apply upper_not_space in E. congruence.
Qed.

(** ** Every match follows the grammar *)

Lemma pattern_eq :
  Book.pattern =
  Bol
  +++ Grp "class" (Rep Upper 1 None)
  +++ Grp "subject" re_subject
  +++ Rep Space 0 None
  +++ Grp "cutter" re_cutter
  +++ Rep Space 0 None
  +++ Opt (Grp "extracutter" re_cutter)
  +++ Rep Space 0 None
  +++ Opt (Grp "year" (Rep Digit 4 (Some 4)))
  +++ Eol.
Proof. reflexivity. Qed.

Lemma eats_nil st : eats st [] st.
Proof. unfold eats. simpl. auto. Qed.

Lemma eats_app st l st1 l' st' :
  eats st l st1 -> eats st1 l' st' -> eats st (l ++ l') st'.
Proof.
  unfold eats. intros (E1 & P1 & M1) (E2 & P2 & M2).
  rewrite E1, E2, P2, P1, M2, M1, length_app, <- app_assoc.
  repeat split; auto. lia.
Qed.

Lemma run_Rep cl lo hi st st' :
  run (Rep cl lo hi) st st' ->
  exists l, eats st l st' /\ forallb (in_class cl) l = true /\
            lo <= length l /\ upto hi (length l).
Proof.
  simpl. intros (l & s' & E & Hl & Hlo & Hhi & ->).
  exists l. unfold eats. simpl. auto.
Qed.

Lemma run_Lit c st st' : run (Lit c) st st' -> eats st [c] st'.
Proof.
  simpl. intros (s' & E & ->). unfold eats. simpl.
  repeat split; auto. lia.
Qed.

Lemma firstn_eaten (l s : str) n : firstn (n + length l - n) (l ++ s) = l.
Proof.
  replace (n + length l - n) with (length l + 0) by lia.
  rewrite firstn_app_2. simpl. apply app_nil_r.
Qed.

Lemma run_Grp name r st st' (P : str -> Prop) :
  (forall st1, run r st st1 -> exists l, eats st l st1 /\ P l) ->
  run (Grp name r) st st' ->
  exists l, captures name st l st' /\ P l.
Proof.
  simpl. intros H (st1 & Hr & ->).
  destruct (H _ Hr) as (l & (E & Hp & Hm) & HP).
  exists l. unfold captures. simpl.
  rewrite Hp, E, firstn_eaten, Hm. auto.
Qed.

Lemma run_cutter st st' :
  run re_cutter st st' -> exists l, eats st l st' /\ is_cutter l = true.
Proof.
  unfold re_cutter. intros (st1 & H1 & H2).
  apply run_Rep in H1. destruct H1 as (u & Hu & Hup & Hu1 & Hu2).
  apply run_Rep in H2. destruct H2 as (d & Hd & Hdec & Hd1 & _).
  exists (u ++ d). split; [eapply eats_app; eauto|].
  simpl in *.
  destruct u as [|c [|c' u]]; simpl in *; try lia.
  destruct d as [|x d]; simpl in *; try lia.
  rewrite andb_true_r in Hup. now rewrite Hup.
Qed.

Lemma digits_intro lo hi l :
  forallb isdecimal l = true -> lo <= length l -> length l <= hi ->
  digits lo hi l = true.
Proof.
  intros H1 H2 H3. unfold digits.
  apply Nat.leb_le in H2, H3. now rewrite H1, H2, H3.
Qed.

Lemma digits_elim lo hi l :
  digits lo hi l = true ->
  forallb isdecimal l = true /\ lo <= length l <= hi.
Proof.
  unfold digits. rewrite !andb_true_iff, !Nat.leb_le. tauto.
Qed.

Lemma run_subject st st' :
  run re_subject st st' ->
  exists w0 d f w1,
    eats st (w0 ++ d ++ frac_text f ++ w1 ++ [0x2E%N]) st' /\
    forallb isspace w0 = true /\ digits 1 4 d = true /\
    opt_ok (digits 1 4) f = true /\ forallb isspace w1 = true.
Proof.
  unfold re_subject.
  intros (st1 & H1 & st2 & H2 & st3 & H3 & st4 & H4 & H5).
  apply run_Rep in H1. destruct H1 as (w0 & E0 & Hw0 & _).
  apply run_Rep in H2. destruct H2 as (d & Ed & Hd & Hd1 & Hd2).
  apply run_Rep in H4. destruct H4 as (w1 & E1 & Hw1 & _).
  apply run_Lit in H5.
  assert (Hf : exists f, eats st2 (frac_text f) st3 /\
                         opt_ok (digits 1 4) f = true).
  { destruct H3 as [(st2' & Hdot & Hfr)| ->].
    - apply run_Lit in Hdot. apply run_Rep in Hfr.
      destruct Hfr as (f & Ef & Hf & Hf1 & Hf2).
      exists (Some f). split.
      + apply (eats_app _ [0x2E%N] st2' f); auto.
      + simpl. now apply digits_intro.
    - exists None. split; [apply eats_nil|reflexivity]. }
  destruct Hf as (f & Ef & Hf).
  exists w0, d, f, w1.
  split; [|split; [|split; [|split]]]; auto.
  - repeat (eapply eats_app; eauto).
  - now apply digits_intro.
Qed.

Lemma run_opt_cutter name st st' :
  run (Opt (Grp name re_cutter)) st st' ->
  exists e,
    opt_ok is_cutter e = true /\
    rest st = opt_text e ++ rest st' /\
    pos st' = pos st + length (opt_text e) /\
    marks st' = match e with Some x => [(name, x)] | None => [] end ++ marks st.
Proof.
  intros [H| ->].
  - apply (run_Grp name re_cutter st st' (fun l => is_cutter l = true)) in H.
    + destruct H as (l & (E & Hp & Hm) & Hl). exists (Some l). simpl. auto.
    + intros st1. apply run_cutter.
  - exists None. simpl. auto.
Qed.

Lemma run_opt_year st st' :
  run (Opt (Grp "year" (Rep Digit 4 (Some 4)))) st st' ->
  exists y,
    opt_ok (digits 4 4) y = true /\
    rest st = opt_text y ++ rest st' /\
    marks st' =
      match y with Some x => [("year"%string, x)] | None => [] end ++ marks st.
Proof.
  intros [H| ->].
  - apply (run_Grp _ _ st st' (fun l => digits 4 4 l = true)) in H.
    + destruct H as (l & (E & Hp & Hm) & Hl). exists (Some l). simpl. auto.
    + intros st1 H1. apply run_Rep in H1.
      destruct H1 as (l & El & Hl & Hl1 & Hl2).
      exists l. split; auto. now apply digits_intro.
  - exists None. simpl. auto.
Qed.

(** A match of the pattern splits the call number into well-formed pieces,
    up to a final newline, and its groups are those pieces. *)
Lemma pattern_run s st' :
  run Book.pattern (mkState 0 s []) st' ->
  exists c nl,
    wf c = true /\ s = text c ++ nl /\ (nl = [] \/ nl = [0x0A%N]) /\
    marks st' = groups_of c.
Proof.
  rewrite pattern_eq.
  intros (st0 & [_ ->] & st1 & Hcls & st2 & Hsub & st3 & Hw2 & st4 & Hcut &
          st5 & Hw3 & st6 & Hext & st7 & Hw4 & st8 & Hyr & Hend & ->).
  apply (run_Grp _ _ _ _
           (fun l => forallb isupper_AZ l = true /\ 1 <= length l)) in Hcls.
  2:{ intros x Hx. apply run_Rep in Hx. destruct Hx as (l & ? & ? & ? & _).
      eauto. }
  destruct Hcls as (cls & (Ec & _ & Mc) & Hcls & Hcls1).
  apply (run_Grp _ _ _ _
           (fun l => exists w0 d f w1,
                l = w0 ++ d ++ frac_text f ++ w1 ++ [0x2E%N] /\
                forallb isspace w0 = true /\ digits 1 4 d = true /\
                opt_ok (digits 1 4) f = true /\
                forallb isspace w1 = true)) in Hsub.
  2:{ intros x Hx. apply run_subject in Hx.
      destruct Hx as (w0 & d & f & w1 & ? & ?). eauto 10. }
  destruct Hsub as (sub & (Es & _ & Ms) &
                    w0 & d & f & w1 & -> & Hw0 & Hd & Hf & Hw1).
  apply run_Rep in Hw2. destruct Hw2 as (w2 & (E2 & _ & M2) & Hw2 & _).
  apply (run_Grp _ _ _ _ (fun l => is_cutter l = true)) in Hcut.
  2:{ intros x. apply run_cutter. }
  destruct Hcut as (cut & (Ecut & _ & Mcut) & Hcut).
  apply run_Rep in Hw3. destruct Hw3 as (w3 & (E3 & _ & M3) & Hw3 & _).
  apply run_opt_cutter in Hext.
  destruct Hext as (e & He & Ee & _ & Me).
  apply run_Rep in Hw4. destruct Hw4 as (w4 & (E4 & _ & M4) & Hw4 & _).
  apply run_opt_year in Hyr. destruct Hyr as (y & Hy & Ey & My).
  simpl in Ec, Mc.
  change (in_class Space) with isspace in *.
  exists (mkCallno cls w0 d f w1 w2 cut w3 e w4 y), (rest st8).
  split; [|split; [|split]].
  - unfold wf. simpl.
    rewrite Hcls, Hw0, Hd, Hf, Hw1, Hw2, Hcut, Hw3, He, Hw4, Hy.
    destruct cls; [simpl in Hcls1; lia|reflexivity].
  - unfold text, subject_text. simpl.
    rewrite Ec, Es, E2, Ecut, E3, Ee, E4, Ey.
    now rewrite <- !app_assoc.
  - exact Hend.
  - unfold groups_of, subject_text. simpl.
    rewrite My, M4, Me, M3, Mcut, M2, Ms, Mc.
    now rewrite <- ?app_assoc.
Qed.

(** ** From the groups to the returned tuple *)

Lemma lstrip_spaces w s :
  forallb isspace w = true -> lstrip (w ++ s) = lstrip s.
Proof.
  induction w as [|c w IH]; simpl; auto.
  intros H. apply andb_true_iff in H. destruct H as [Hc Hw].
  rewrite Hc. auto.
Qed.

Lemma lstrip_nonspace c s : isspace c = false -> lstrip (c :: s) = c :: s.
Proof. intros H. simpl. now rewrite H. Qed.

Lemma rstrip_nonspace x c : isspace c = false -> rstrip (x ++ [c]) = x ++ [c].
Proof.
  intros H. unfold rstrip. rewrite rev_app_distr. simpl.
  rewrite H. simpl. now rewrite rev_involutive.
Qed.

Lemma digits_nonempty lo hi d :
  digits (S lo) hi d = true ->
  exists x s, d = x :: s /\ isdecimal x = true /\ forallb isdecimal s = true.
Proof.
  intros H. apply digits_elim in H. destruct H as [H1 H2].
  destruct d as [|x s]; simpl in *; [lia|].
  apply andb_true_iff in H1. destruct H1. eauto.
Qed.

Lemma strip_subject c :
  wf c = true -> strip (cn_ws0 c ++ subject_text c) = subject_text c.
Proof.
  unfold wf. rewrite !andb_true_iff.
  intros ((((((((((_ & Hw0) & Hd) & _) & _) & _) & _) & _) & _) & _) & _).
  unfold strip. rewrite lstrip_spaces by exact Hw0.
  unfold subject_text.
  destruct (digits_nonempty _ _ _ Hd) as (x & s & -> & Hx & _).
  simpl app. rewrite lstrip_nonspace by now apply decimal_not_space.
  change (x :: s ++ frac_text (cn_frac c) ++ cn_ws1 c ++ [0x2E%N])
    with ((x :: s) ++ frac_text (cn_frac c) ++ cn_ws1 c ++ [0x2E%N]).
  rewrite !app_assoc. apply rstrip_nonspace. reflexivity.
Qed.

Lemma cutter_shape l :
  is_cutter l = true ->
  exists c x z,
    l = c :: x ++ [z] /\ isupper_AZ c = true /\ isdecimal z = true /\
    forallb isdecimal x = true.
Proof.
  destruct l as [|c [|d ds]]; try discriminate.
  unfold is_cutter. intros H. apply andb_true_iff in H. destruct H as [Hc Hd].
  destruct (exists_last (l := d :: ds)) as (x & z & E); [discriminate|].
  rewrite E in *. rewrite forallb_app in Hd.
  apply andb_true_iff in Hd. destruct Hd as [Hx Hz]. simpl in Hz.
  rewrite andb_true_r in Hz. exists c, x, z. auto.
Qed.

Lemma strip_cutter l : is_cutter l = true -> strip l = l.
Proof.
  intros H. destruct (cutter_shape _ H) as (c & x & z & -> & Hc & Hz & _).
  unfold strip. rewrite lstrip_nonspace by now apply upper_not_space.
  change (c :: x ++ [z]) with ((c :: x) ++ [z]).
  apply rstrip_nonspace. now apply decimal_not_space.
Qed.

Lemma truthy_cutter l : is_cutter l = true -> truthy (Some l) = true.
Proof. destruct l; [discriminate|reflexivity]. Qed.

Lemma truthy_year y : digits 4 4 y = true -> truthy (Some y) = true.
Proof.
  intros H. destruct (digits_nonempty _ _ _ H) as (x & s & -> & _).
  reflexivity.
Qed.

Lemma bind_ret {A B} (a : A) (f : A -> M B) : bind (ret a) f = f a.
Proof. unfold bind, ret. now destruct (f a). Qed.

Lemma ret_inj {A} (x y : A) : ret x = ret y -> x = y.
Proof. intros H. now injection H. Qed.

Ltac run_ret := repeat (rewrite bind_ret; cbv beta).

Lemma wf_elim c :
  wf c = true ->
  is_cutter (cn_cutter c) = true /\ opt_ok is_cutter (cn_extra c) = true /\
  opt_ok (digits 4 4) (cn_year c) = true /\
  forallb isupper_AZ (cn_class c) = true /\ cn_class c <> [].
Proof.
  unfold wf. rewrite !andb_true_iff.
  intros ((((((((((Hc & _) & _) & _) & _) & _) & Hcut) & _) & He) & _) & Hy).
  repeat split; auto.
  - destruct (cn_class c); [discriminate|exact Hc].
  - destruct (cn_class c); [discriminate|congruence].
Qed.

(** The tuple returned for a match whose groups are the pieces [c]. *)
Lemma parse_of_groups s t a c :
  wf c = true ->
  re_match Book.pattern s = Some (groups_of c) ->
  Book.call_num_parse (mkBook s t a) = ([], Ok (Some (pieces c))).
Proof.
  intros Hwf Hm.
  destruct (wf_elim _ Hwf) as (Hcut & He & Hy & _).
  unfold Book.call_num_parse. simpl callnum. rewrite Hm.
  assert (Gc : group (groups_of c) "class" = Some (cn_class c))
    by (unfold groups_of; destruct (cn_year c), (cn_extra c); reflexivity).
  assert (Gs : group (groups_of c) "subject" =
               Some (cn_ws0 c ++ subject_text c))
    by (unfold groups_of; destruct (cn_year c), (cn_extra c); reflexivity).
  assert (Gk : group (groups_of c) "cutter" = Some (cn_cutter c))
    by (unfold groups_of; destruct (cn_year c), (cn_extra c); reflexivity).
  assert (Ge : group (groups_of c) "extracutter" = cn_extra c)
    by (unfold groups_of; destruct (cn_year c), (cn_extra c); reflexivity).
  assert (Gy : group (groups_of c) "year" = cn_year c)
    by (unfold groups_of; destruct (cn_year c), (cn_extra c); reflexivity).
  rewrite Gc, Gs, Gk, Ge, Gy. unfold Book.strip_of.
  rewrite !bind_ret, strip_subject, strip_cutter by assumption.
  unfold pieces.
  destruct (cn_extra c) as [e|]; simpl in He.
  - rewrite (truthy_cutter _ He), !bind_ret, (strip_cutter _ He).
    rewrite (truthy_cutter _ He).
    destruct (cn_year c) as [y|]; simpl in Hy.
    + now rewrite (truthy_year _ Hy).
    + reflexivity.
  - simpl truthy. cbv iota. rewrite !bind_ret.
    destruct (cn_year c) as [y|]; simpl in Hy.
    + now rewrite (truthy_year _ Hy).
    + reflexivity.
Qed.

(** The two outcomes of [call_num_parse]. *)
Lemma call_num_parse_cases b :
  (exists c nl,
      wf c = true /\ callnum b = text c ++ nl /\ (nl = [] \/ nl = [0x0A%N]) /\
      re_match Book.pattern (callnum b) = Some (groups_of c) /\
      Book.call_num_parse b = ([], Ok (Some (pieces c))))
  \/ (re_match Book.pattern (callnum b) = None /\
      Book.call_num_parse b = ([lit "invalid call number"], Ok None)).
Proof.
  destruct (re_match Book.pattern (callnum b)) as [m|] eqn:E.
  - left. destruct (re_match_Some _ _ _ E) as (st' & Hr & ->).
    destruct (pattern_run _ _ Hr) as (c & nl & Hwf & Hs & Hnl & Hm).
    exists c, nl. rewrite Hm in *. repeat split; auto.
    destruct b as [s t a]. simpl in *. now apply parse_of_groups.
  - right. split; auto. unfold Book.call_num_parse. now rewrite E.
Qed.

(** ** String order *)

Lemma str_eqb_eq a : forall b, str_eqb a b = true <-> a = b.
Proof.
  induction a as [|x a IH]; intros [|y b]; simpl; split; intros H;
    try discriminate; auto.
  - apply andb_true_iff in H. destruct H as [Hx Ha].
    apply N.eqb_eq in Hx. apply IH in Ha. congruence.
  - injection H as -> ->. unfold char_eqb. rewrite N.eqb_refl.
    now apply IH.
Qed.

Lemma str_eqb_refl a : str_eqb a a = true.
Proof. now apply str_eqb_eq. Qed.

Lemma str_ltb_irrefl a : str_ltb a a = false.
Proof.
  induction a as [|x a IH]; simpl; auto.
  now rewrite N.ltb_irrefl, N.eqb_refl.
Qed.

Lemma str_ltb_cons x a y b :
  str_ltb (x :: a) (y :: b) = true <->
  (x < y)%N \/ (x = y /\ str_ltb a b = true).
Proof.
  simpl. destruct (N.ltb x y) eqn:E1.
  - apply N.ltb_lt in E1. tauto.
  - apply N.ltb_ge in E1. destruct (N.eqb x y) eqn:E2.
    + apply N.eqb_eq in E2. split; auto. intros [?|[_ ?]]; auto. lia.
    + apply N.eqb_neq in E2. split; [discriminate|]. intros [?|[? _]]; lia.
Qed.

Lemma str_ltb_trans a : forall b c,
  str_ltb a b = true -> str_ltb b c = true -> str_ltb a c = true.
Proof.
  induction a as [|x a IH]; intros [|y b] [|z c] H1 H2;
    try discriminate; auto.
  apply str_ltb_cons in H1. apply str_ltb_cons in H2. apply str_ltb_cons.
  destruct H1 as [H1|[-> H1]], H2 as [H2|[-> H2]]; eauto.
  left. lia.
Qed.

Lemma str_ltb_total a : forall b,
  a <> b -> str_ltb a b = true \/ str_ltb b a = true.
Proof.
  induction a as [|x a IH]; intros [|y b] H; simpl; auto.
  rewrite (N.eqb_sym y x).
  destruct (N.ltb x y) eqn:E1; auto.
  destruct (N.ltb y x) eqn:E2; auto.
  apply N.ltb_ge in E1, E2.
  assert (x = y) by lia. subst y. rewrite N.eqb_refl.
  apply IH. congruence.
Qed.

(** ** Order of the keys *)

Lemma key_eqb_eq a b : key_eqb a b = true <-> a = b.
Proof.
  destruct a as [s|[x|]], b as [t|[y|]]; simpl; split; intros H;
    try discriminate; auto.
  - apply str_eqb_eq in H. congruence.
  - injection H as ->. apply str_eqb_refl.
  - apply Z.eqb_eq in H. congruence.
  - injection H as ->. apply Z.eqb_refl.
Qed.

Lemma key_ltb_irrefl a : key_ltb a a = false.
Proof.
  destruct a as [s|[x|]]; simpl; auto using str_ltb_irrefl, Z.ltb_irrefl.
Qed.

Lemma key_ltb_trans a b c :
  key_ltb a b = true -> key_ltb b c = true -> key_ltb a c = true.
Proof.
  destruct a as [s|[x|]], b as [t|[y|]], c as [u|[z|]]; simpl;
    try discriminate; auto.
  - apply str_ltb_trans.
  - rewrite !Z.ltb_lt. lia.
Qed.

Lemma lex_ltb_irrefl a : lex_ltb a a = false.
Proof.
  induction a as [|x a IH]; simpl; auto.
  now rewrite (proj2 (key_eqb_eq x x) eq_refl).
Qed.

Lemma lex_ltb_trans a : forall b c,
  lex_ltb a b = true -> lex_ltb b c = true -> lex_ltb a c = true.
Proof.
  induction a as [|x a IH]; intros [|y b] [|z c]; simpl;
    try discriminate; auto.
  destruct (key_eqb x y) eqn:Exy.
  - apply key_eqb_eq in Exy. subst y.
    destruct (key_eqb x z); eauto.
  - destruct (key_eqb y z) eqn:Eyz.
    + apply key_eqb_eq in Eyz. subst z. now rewrite Exy.
    + intros H1 H2. pose proof (key_ltb_trans _ _ _ H1 H2) as H3.
      destruct (key_eqb x z) eqn:Exz; auto.
      apply key_eqb_eq in Exz. subst z.
      pose proof (key_ltb_trans _ _ _ H1 H2) as H4.
      now rewrite key_ltb_irrefl in H4.
Qed.

(** ** The comparator on parsed call numbers *)

Lemma isdecimal_decimal c : isdecimal c = true -> exists d, decimal c = Some d.
Proof. unfold isdecimal. destruct (decimal c); [eauto|discriminate]. Qed.

Lemma int_from_decimals s : forall acc,
  forallb isdecimal s = true -> exists z, int_from acc s = Some z.
Proof.
  induction s as [|c s IH]; simpl; intros acc H; [eauto|].
  apply andb_true_iff in H. destruct H as [Hc Hs].
  destruct (isdecimal_decimal _ Hc) as [d ->]. auto.
Qed.

(** [int] returns on a year of the grammar. *)
Lemma year_of_digits y :
  opt_ok (digits 4 4) y = true ->
  Book.year_of y = ret (year_value y) /\
  (y <> None -> year_value y <> None).
Proof.
  destruct y as [s|]; simpl; intros H; [|split; [reflexivity|congruence]].
  unfold Book.year_of. rewrite (truthy_year _ H).
  destruct (digits_nonempty _ _ _ H) as (x & t & -> & Hx & Ht).
  destruct (int_from_decimals (x :: t) 0) as [z Hz].
  { simpl. now rewrite Hx, Ht. }
  unfold int. rewrite Hz, bind_ret.
  split; [reflexivity|congruence].
Qed.

(** The chain of tests in [__lt__] is the lexicographic comparison. *)
Lemma cascade_lex (c1 s1 k1 c2 s2 k2 : str) (y1 y2 : option Z) :
  (if negb (str_eqb c1 c2) then str_ltb c1 c2
   else if negb (str_eqb s1 s2) then str_ltb s1 s2
   else if negb (str_eqb k1 k2) then str_ltb k1 k2
   else match y1, y2 with
        | Some sy, Some oy => Z.ltb sy oy
        | Some _, None => false
        | None, Some _ => true
        | None, None => false
        end) =
  lex_ltb [KStr c1; KStr s1; KStr k1; KYear y1]
          [KStr c2; KStr s2; KStr k2; KYear y2].
Proof.
  simpl.
  destruct (str_eqb c1 c2), (str_eqb s1 s2), (str_eqb k1 k2); simpl; auto.
  destruct y1 as [x|], y2 as [y|]; auto.
  destruct (Z.eqb x y) eqn:E; auto.
  apply Z.eqb_eq in E. subst. apply Z.ltb_irrefl.
Qed.

(** On two call numbers that parse, [__lt__] prints nothing, raises nothing
    and is the lexicographic comparison of their four keys. *)
Lemma lt_pieces a b ca cb :
  wf ca = true -> wf cb = true ->
  Book.call_num_parse a = ([], Ok (Some (pieces ca))) ->
  Book.call_num_parse b = ([], Ok (Some (pieces cb))) ->
  Book.__lt__ a b =
  ret (lex_ltb (sort_keys remove_spaces (pieces ca))
               (sort_keys remove_spaces (pieces cb))).
Proof.
  intros Ha Hb Pa Pb.
  destruct (wf_elim _ Ha) as (_ & _ & Hya & _).
  destruct (wf_elim _ Hb) as (_ & _ & Hyb & _).
  destruct (year_of_digits _ Hya) as [Ya _].
  destruct (year_of_digits _ Hyb) as [Yb _].
  unfold Book.__lt__. rewrite Pa, Pb.
  change (@pair (list str) (result (option parts)) [] (Ok (Some (pieces ca))))
    with (ret (Some (pieces ca))).
  change (@pair (list str) (result (option parts)) [] (Ok (Some (pieces cb))))
    with (ret (Some (pieces cb))).
  unfold Book.subscript, Book.nospace_of, sort_keys, class_text,
    remove_spaces, pieces.
  cbn [class1 subject cutter year].
  repeat (rewrite bind_ret; cbn beta iota; cbn [class1 subject cutter year]).
  rewrite <- cascade_lex.
  destruct (str_eqb _ _); simpl negb; cbv iota; [|reflexivity].
  destruct (str_eqb _ _); simpl negb; cbv iota; [|reflexivity].
  destruct (str_eqb _ _); simpl negb; cbv iota; [|reflexivity].
  rewrite Ya, bind_ret, Yb, bind_ret.
  now destruct (year_value (cn_year ca)), (year_value (cn_year cb)).
Qed.

Lemma matches_accepts b :
  matches b = true <-> accepts Book.pattern (callnum b).
Proof.
  unfold matches.
  destruct (re_match Book.pattern (callnum b)) eqn:E; split; intros H; auto.
  - destruct (re_match_Some _ _ _ E) as (st' & Hr & _). now exists st'.
  - discriminate.
  - apply re_match_None in E. contradiction.
Qed.

Lemma matches_pieces b :
  matches b = true ->
  exists c, wf c = true /\
            Book.call_num_parse b = ([], Ok (Some (pieces c))).
Proof.
  unfold matches.
  destruct (call_num_parse_cases b) as [(c & nl & Hwf & _ & _ & _ & Hp)|[E _]].
  - eauto.
  - now rewrite E.
Qed.

Lemma parsed_pieces b p :
  outcome (Book.call_num_parse b) = Ok (Some p) ->
  exists c, wf c = true /\ p = pieces c /\
            Book.call_num_parse b = ([], Ok (Some (pieces c))).
Proof.
  destruct (call_num_parse_cases b)
    as [(c & nl & Hwf & _ & _ & _ & Hp)|[_ Hp]]; rewrite Hp; simpl; intros H.
  - injection H as <-. eauto.
  - discriminate.
Qed.

Lemma lt_parsed a b pa pb :
  outcome (Book.call_num_parse a) = Ok (Some pa) ->
  outcome (Book.call_num_parse b) = Ok (Some pb) ->
  Book.__lt__ a b =
  ret (lex_ltb (sort_keys remove_spaces pa) (sort_keys remove_spaces pb)).
Proof.
  intros Ha Hb.
  destruct (parsed_pieces _ _ Ha) as (ca & Wa & -> & Pa).
  destruct (parsed_pieces _ _ Hb) as (cb & Wb & -> & Pb).
  now apply lt_pieces.
Qed.

Lemma unmatched_parse b :
  matches b = false ->
  Book.call_num_parse b = ([lit "invalid call number"], Ok None).
Proof.
  unfold matches, Book.call_num_parse.
  now destruct (re_match Book.pattern (callnum b)).
Qed.

(** ** The year key *)

(** C1: for two books whose call numbers parse and whose class, subject and
    cutter keys are equal, the years decide: with two years the first book
    is before the second exactly when its year is the smaller number; a
    book with a year is not before one without; a book without a year is
    before one with a year; with no year on either side the first is not
    before the second. *)
Theorem year_tie_break a b pa pb :
  outcome (Book.call_num_parse a) = Ok (Some pa) ->
  outcome (Book.call_num_parse b) = Ok (Some pb) ->
  remove_spaces (class_text pa) = remove_spaces (class_text pb) ->
  remove_spaces (subject pa) = remove_spaces (subject pb) ->
  cutter pa = cutter pb ->
  match year pa, year pb with
  | Some ya, Some yb =>
      exists na nb,
        int ya = ret na /\ int yb = ret nb /\
        Book.__lt__ a b = ret (Z.ltb na nb)
  | Some _, None => Book.__lt__ a b = ret false
  | None, Some _ => Book.__lt__ a b = ret true
  | None, None => Book.__lt__ a b = ret false
  end.
Proof.
  intros Ha Hb Ec Es Ek.
  destruct (parsed_pieces _ _ Ha) as (ca & Wa & -> & Pa).
  destruct (parsed_pieces _ _ Hb) as (cb & Wb & -> & Pb).
  rewrite (lt_pieces a b ca cb Wa Wb Pa Pb).
  unfold sort_keys. rewrite Ec, Es, Ek. simpl lex_ltb.
  rewrite !str_eqb_refl.
  destruct (wf_elim _ Wa) as (_ & _ & Hya & _).
  destruct (wf_elim _ Wb) as (_ & _ & Hyb & _).
  destruct (year_of_digits _ Hya) as [Ya Na].
  destruct (year_of_digits _ Hyb) as [Yb Nb].
  simpl year in *.
  assert (Hint : forall y, opt_ok (digits 4 4) (Some y) = true ->
                 forall n, year_value (Some y) = Some n -> int y = ret n).
  { intros y Hy n Hn. simpl in Hn.
    destruct (digits_nonempty _ _ _ Hy) as (x & t & -> & _).
    unfold int. now rewrite Hn. }
  destruct (cn_year ca) as [ya|] eqn:Eya, (cn_year cb) as [yb|] eqn:Eyb.
  - destruct (year_value (Some ya)) as [na|] eqn:Va; [|now destruct Na].
    destruct (year_value (Some yb)) as [nb|] eqn:Vb; [|now destruct Nb].
    exists na, nb. repeat split; auto.
    simpl. destruct (Z.eqb na nb) eqn:E; auto.
    apply Z.eqb_eq in E. subst. now rewrite Z.ltb_irrefl.
  - destruct (year_value (Some ya)) as [na|] eqn:Va; [|now destruct Na].
    reflexivity.
  - destruct (year_value (Some yb)) as [nb|] eqn:Vb; [|now destruct Nb].
    reflexivity.
  - reflexivity.
Qed.

Lemma year_tie_break_witness :
  exists na nb,
    int (lit "2013") = ret na /\ int (lit "2019") = ret nb /\
    Book.__lt__ (mkBook (lit "QA76.73.P98 L87 2013") [] [])
                (mkBook (lit "QA76.73.P98 L87 2019") [] []) =
    ret (Z.ltb na nb).
Proof.
  apply (year_tie_break
           (mkBook (lit "QA76.73.P98 L87 2013") [] [])
           (mkBook (lit "QA76.73.P98 L87 2019") [] [])
           (mkParts (Some (lit "QA")) (lit "76.73.") (lit "P98 L87")
                    (Some (lit "2013")))
           (mkParts (Some (lit "QA")) (lit "76.73.") (lit "P98 L87")
                    (Some (lit "2019"))));
    vm_compute; reflexivity.
Defined.

(** ** The four keys *)

(** The claim of C2 read literally, every white-space character removed
    from class and subject, fails: a tab between the subject number and its
    period is white space but not a space, so the code keeps it in the key.
    The two call numbers below have equal keys under the claim, yet the
    first is before the second. *)
Lemma whitespace_keys_counterexample :
  let a := mkBook (lit "A1" ++ [0x09%N] ++ lit ".B1") [] [] in
  let b := mkBook (lit "A1.B1") [] [] in
  exists pa pb,
    outcome (Book.call_num_parse a) = Ok (Some pa) /\
    outcome (Book.call_num_parse b) = Ok (Some pb) /\
    outcome (Book.__lt__ a b) = Ok true /\
    lex_ltb (sort_keys remove_whitespace pa)
            (sort_keys remove_whitespace pb) = false.
Proof.
  exists (mkParts (Some (lit "A")) (lit "1" ++ [0x09%N] ++ lit ".")
                  (lit "B1") None),
         (mkParts (Some (lit "A")) (lit "1.") (lit "B1") None).
  repeat split; vm_compute; reflexivity.
Qed.

(** C2 (amended): for two books whose call numbers parse, [__lt__] is the
    lexicographic comparison of four keys in priority order: the class with
    its space characters (U+0020) removed, the subject with its space
    characters removed, the cutter as parsed, and the year key; no other
    white space is removed. *)
Theorem lt_is_lexicographic a b pa pb :
  outcome (Book.call_num_parse a) = Ok (Some pa) ->
  outcome (Book.call_num_parse b) = Ok (Some pb) ->
  Book.__lt__ a b =
  ret (lex_ltb (sort_keys remove_spaces pa) (sort_keys remove_spaces pb)).
Proof. apply lt_parsed. Qed.

Lemma lt_is_lexicographic_witness :
  Book.__lt__ (mkBook (lit "QA 76 .P98 L87 2013") [] [])
              (mkBook (lit "QA76.P98 M37") [] []) =
  ret (lex_ltb
         (sort_keys remove_spaces
            (mkParts (Some (lit "QA")) (lit "76 .") (lit "P98 L87")
                     (Some (lit "2013"))))
         (sort_keys remove_spaces
            (mkParts (Some (lit "QA")) (lit "76.") (lit "P98 M37") None))).
Proof.
  apply lt_is_lexicographic; vm_compute; reflexivity.
Defined.

(** C5: the subject is compared as a string: with equal class (and equal
    cutter and year keys), the book whose parsed subject is "10." is before
    the one whose parsed subject is "2.". *)
Theorem subject_compared_as_string a b pa pb :
  outcome (Book.call_num_parse a) = Ok (Some pa) ->
  outcome (Book.call_num_parse b) = Ok (Some pb) ->
  remove_spaces (class_text pa) = remove_spaces (class_text pb) ->
  cutter pa = cutter pb ->
  year_value (year pa) = year_value (year pb) ->
  subject pa = lit "10." ->
  subject pb = lit "2." ->
  Book.__lt__ a b = ret true.
Proof.
  intros Ha Hb Ec _ _ Sa Sb.
  rewrite (lt_parsed a b pa pb Ha Hb).
  unfold sort_keys. rewrite Ec, Sa, Sb. simpl lex_ltb.
  now rewrite str_eqb_refl.
Qed.

Lemma subject_compared_as_string_witness :
  Book.__lt__ (mkBook (lit "QA10.C15 2019") [] [])
              (mkBook (lit "QA2.C15 2019") [] []) = ret true.
Proof.
  apply (subject_compared_as_string
           (mkBook (lit "QA10.C15 2019") [] [])
           (mkBook (lit "QA2.C15 2019") [] [])
           (mkParts (Some (lit "QA")) (lit "10.") (lit "C15")
                    (Some (lit "2019")))
           (mkParts (Some (lit "QA")) (lit "2.") (lit "C15")
                    (Some (lit "2019"))));
    vm_compute; reflexivity.
Defined.

(** ** Call numbers that do not match *)

(** C7: for a call number that does not match the grammar,
    [call_num_parse] prints the one line "invalid call number" and returns
    [None]: no tuple, and no exception. *)
Theorem unmatched_prints_and_returns_none b :
  ~ accepts Book.pattern (callnum b) ->
  Book.call_num_parse b = ([lit "invalid call number"], Ok None).
Proof.
  intros H. apply unmatched_parse.
  destruct (matches b) eqn:E; auto.
  apply matches_accepts in E. contradiction.
Qed.

Lemma unmatched_prints_and_returns_none_witness :
  Book.call_num_parse (mkBook (lit "qa76.73.C15") [] []) =
  ([lit "invalid call number"], Ok None).
Proof.
  apply unmatched_prints_and_returns_none.
  apply re_match_None. vm_compute. reflexivity.
Defined.

Lemma outcome_bind_raise {A B} (m : M A) (f : A -> M B) e :
  outcome m = Raise e -> outcome (bind m f) = Raise e.
Proof.
  destruct m as [o [x|e']]; unfold outcome, bind; simpl; intros H.
  - discriminate.
  - now injection H as ->.
Qed.

Lemma outcome_bind_ok {A B} (m : M A) (f : A -> M B) x :
  outcome m = Ok x -> outcome (bind m f) = outcome (f x).
Proof.
  destruct m as [o [y|e']]; unfold outcome, bind; simpl; intros H.
  - injection H as ->. now destruct (f x).
  - discriminate.
Qed.

(** A comparison with a call number that does not match raises. *)
Lemma lt_unmatched a b :
  matches a = false \/ matches b = false ->
  outcome (Book.__lt__ a b) = Raise TypeError.
Proof.
  intros H. unfold Book.__lt__.
  destruct (matches a) eqn:Ea.
  - destruct H as [H|H]; [discriminate|].
    destruct (matches_pieces _ Ea) as (ca & Wa & Pa).
    rewrite Pa, (unmatched_parse _ H).
    rewrite (outcome_bind_ok _ _ (Some (pieces ca))) by reflexivity.
    rewrite (outcome_bind_ok _ _ None) by reflexivity.
    reflexivity.
  - rewrite (unmatched_parse _ Ea).
    rewrite (outcome_bind_ok _ _ None) by reflexivity.
    destruct (Book.call_num_parse b) as [o [p|e]] eqn:Pb.
    + rewrite (outcome_bind_ok _ _ p) by reflexivity. reflexivity.
    + exfalso.
      destruct (call_num_parse_cases b)
        as [(c & nl & _ & _ & _ & _ & Hp)|[_ Hp]]; congruence.
Qed.

(** ** Sorting *)

Lemma lt_before a b :
  matches a = true -> matches b = true ->
  Book.__lt__ a b = ret (before a b).
Proof.
  intros Ha Hb.
  destruct (matches_pieces _ Ha) as (ca & Wa & Pa).
  destruct (matches_pieces _ Hb) as (cb & Wb & Pb).
  unfold before, book_keys. rewrite Pa, Pb. simpl outcome. cbv iota.
  now apply lt_pieces.
Qed.

Lemma before_irrefl a : before a a = false.
Proof. apply lex_ltb_irrefl. Qed.

Lemma before_trans a b c :
  before a b = true -> before b c = true -> before a c = true.
Proof. apply lex_ltb_trans. Qed.

Lemma before_asym a b : before a b = true -> before b a = false.
Proof.
  intros H. destruct (before b a) eqn:E; [|reflexivity].
  pose proof (before_trans _ _ _ H E) as H'.
  rewrite before_irrefl in H'. discriminate H'.
Qed.

Lemma str_eqb_sym u v : str_eqb u v = str_eqb v u.
Proof.
  destruct (str_eqb u v) eqn:E, (str_eqb v u) eqn:E'; auto.
  - apply str_eqb_eq in E. subst. now rewrite str_eqb_refl in E'.
  - apply str_eqb_eq in E'. subst. now rewrite str_eqb_refl in E.
Qed.

Lemma str_ltb_connected u v :
  str_eqb u v = false -> str_ltb u v = false -> str_ltb v u = false -> False.
Proof.
  intros E H1 H2.
  assert (N : u <> v) by (intros ->; now rewrite str_eqb_refl in E).
  destruct (str_ltb_total _ _ N); congruence.
Qed.

Ltac same_str_key u v :=
  rewrite (str_eqb_sym v u);
  destruct (str_eqb u v) eqn:?E;
  [ apply str_eqb_eq in E; subst v
  | intros ? ?; exfalso; eapply (str_ltb_connected u v); eassumption ].

Lemma keys_total (c1 s1 k1 c2 s2 k2 : str) (y1 y2 : option Z) :
  lex_ltb [KStr c1; KStr s1; KStr k1; KYear y1]
          [KStr c2; KStr s2; KStr k2; KYear y2] = false ->
  lex_ltb [KStr c2; KStr s2; KStr k2; KYear y2]
          [KStr c1; KStr s1; KStr k1; KYear y1] = false ->
  [KStr c1; KStr s1; KStr k1; KYear y1] =
  [KStr c2; KStr s2; KStr k2; KYear y2].
Proof.
  simpl.
  same_str_key c1 c2. same_str_key s1 s2. same_str_key k1 k2.
  destruct y1 as [x|], y2 as [y|]; simpl; try discriminate; auto.
  rewrite (Z.eqb_sym y x).
  destruct (Z.eqb x y) eqn:E.
  - apply Z.eqb_eq in E. now subst.
  - intros H1 H2. apply Z.ltb_ge in H1, H2. apply Z.eqb_neq in E. lia.
Qed.

(** Books that match and are not ordered either way have the same keys. *)
Lemma before_total a b :
  matches a = true -> matches b = true ->
  before a b = false -> before b a = false -> book_keys a = book_keys b.
Proof.
  intros Ha Hb.
  destruct (matches_pieces _ Ha) as (ca & Wa & Pa).
  destruct (matches_pieces _ Hb) as (cb & Wb & Pb).
  unfold before, book_keys. rewrite Pa, Pb. simpl outcome. cbv iota.
  unfold sort_keys. apply keys_total.
Qed.

Lemma before_neg_trans x y z :
  matches x = true -> matches y = true ->
  before z y = false -> before y x = false -> before z x = false.
Proof.
  intros Hx Hy H1 H2.
  destruct (before z x) eqn:E; [|reflexivity].
  destruct (before x y) eqn:Exy.
  - pose proof (before_trans _ _ _ E Exy) as T.
    rewrite T in H1. discriminate H1.
  - pose proof (before_total _ _ Hx Hy Exy H2) as K.
    assert (S : before z x = before z y).
    { unfold before. rewrite K. reflexivity. }
    rewrite S, H1 in E. discriminate E.
Qed.

Lemma insert_matching x : forall l,
  matches x = true -> Forall (fun b => matches b = true) l ->
  StronglySorted not_after l ->
  exists out,
    insert Book.__lt__ x l = ret out /\ Permutation (x :: l) out /\
    StronglySorted not_after out.
Proof.
  induction l as [|y l IH]; intros Hx Hl Hs; simpl.
  - exists [x]. repeat split; auto. repeat constructor.
  - inversion Hl as [|? ? Hy Hl']; subst.
    inversion Hs as [|? ? Hs' Hy']; subst.
    rewrite (lt_before _ _ Hy Hx), bind_ret.
    destruct (before y x) eqn:E.
    + destruct (IH Hx Hl' Hs') as (out & -> & Hp & Ho).
      rewrite bind_ret. exists (y :: out). repeat split; auto.
      * rewrite perm_swap. now constructor.
      * constructor; auto.
        rewrite Forall_forall in *. intros z Hz.
        apply (Permutation_in _ (Permutation_sym Hp)) in Hz.
        destruct Hz as [<-|Hz]; auto.
        now apply before_asym.
    + exists (x :: y :: l). repeat split; auto.
      constructor; auto. constructor; auto.
      rewrite Forall_forall in *. intros z Hz.
      apply (before_neg_trans x y z); auto. now apply Hy'.
Qed.

Lemma sorted_matching : forall l,
  Forall (fun b => matches b = true) l ->
  exists out,
    sorted Book.__lt__ l = ret out /\ Permutation l out /\
    StronglySorted not_after out.
Proof.
  induction l as [|x l IH]; intros Hl; simpl.
  - exists []. repeat split; auto. constructor.
  - inversion Hl as [|? ? Hx Hl']; subst.
    destruct (IH Hl') as (s & -> & Hp & Hs).
    rewrite bind_ret.
    destruct (insert_matching x s Hx) as (out & Hi & Hp' & Ho); auto.
    { rewrite Forall_forall in *. intros z Hz. apply Hl'.
      now apply (Permutation_in _ (Permutation_sym Hp)). }
    exists out. repeat split; auto.
    now rewrite <- Hp', <- Hp.
Qed.

Lemma sorted_of_sorted : forall l,
  Forall (fun b => matches b = true) l ->
  StronglySorted not_after l ->
  sorted Book.__lt__ l = ret l.
Proof.
  induction l as [|x l IH]; intros Hl Hs; simpl; auto.
  inversion Hl as [|? ? Hx Hl']; subst.
  inversion Hs as [|? ? Hs' Hx']; subst.
  rewrite IH, bind_ret by auto.
  destruct l as [|y l]; simpl; auto.
  inversion Hl' as [|? ? Hy _]; subst.
  inversion Hx' as [|? ? Hxy _]; subst.
  rewrite (lt_before _ _ Hy Hx), bind_ret.
  unfold not_after in Hxy. now rewrite Hxy.
Qed.

Lemma print_each_repr : forall l,
  print_each l = (map Book.__repr__ l, Ok tt).
Proof.
  induction l as [|b l IH]; simpl; auto.
  rewrite IH. reflexivity.
Qed.

Lemma all_or_some l :
  Forall (fun b => matches b = true) l \/
  exists b, In b l /\ matches b = false.
Proof.
  induction l as [|x l [IH|(b & Hb & Hn)]].
  - left. constructor.
  - destruct (matches x) eqn:E.
    + left. now constructor.
    + right. exists x. split; [now left|exact E].
  - right. exists b. split; [now right|exact Hn].
Qed.

Lemma accepts_Forall l :
  Forall (fun b => accepts Book.pattern (callnum b)) l ->
  Forall (fun b => matches b = true) l.
Proof.
  apply Forall_impl. intros b. apply matches_accepts.
Qed.

Lemma not_accepts_unmatched b :
  ~ accepts Book.pattern (callnum b) -> matches b = false.
Proof.
  intros H. destruct (matches b) eqn:E; [|reflexivity].
  apply matches_accepts in E. contradiction.
Qed.

Lemma sorted_cons {A} (lt : A -> A -> M bool) x l :
  sorted lt (x :: l) = bind (sorted lt l) (insert lt x).
Proof. reflexivity. Qed.

Lemma sorted_single {A} (lt : A -> A -> M bool) x : sorted lt [x] = ret [x].
Proof. reflexivity. Qed.

Lemma insert_cons {A} (lt : A -> A -> M bool) x y l :
  insert lt x (y :: l) =
  bind (lt y x) (fun b : bool =>
    if b then bind (insert lt x l) (fun r => ret (y :: r))
    else ret (x :: y :: l)).
Proof. reflexivity. Qed.

(** A sort of two or more books, one of which does not match, raises. *)
Lemma sorted_unmatched : forall l,
  2 <= length l ->
  (exists b, In b l /\ matches b = false) ->
  outcome (sorted Book.__lt__ l) = Raise TypeError.
Proof.
  induction l as [|x l IH]; intros Hlen (b & Hin & Hb); [destruct Hin|].
  rewrite sorted_cons.
  destruct (all_or_some l) as [Hall|(b' & Hin' & Hb')].
  - assert (Hx : matches x = false).
    { destruct Hin as [->|Hin]; [exact Hb|].
      rewrite Forall_forall in Hall. rewrite (Hall _ Hin) in Hb.
      discriminate Hb. }
    destruct (sorted_matching l Hall) as (out & -> & Hp & _).
    rewrite bind_ret.
    destruct out as [|y out].
    + apply Permutation_sym, Permutation_nil in Hp. subst l.
      simpl in Hlen. lia.
    + rewrite insert_cons.
      apply outcome_bind_raise. apply lt_unmatched. right. exact Hx.
  - destruct l as [|y [|y' l']].
    + destruct Hin'.
    + destruct Hin' as [->|[]].
      rewrite sorted_single, bind_ret, insert_cons.
      apply outcome_bind_raise. apply lt_unmatched. left. exact Hb'.
    + apply outcome_bind_raise. apply IH; [simpl; lia|].
      exists b'. split; assumption.
Qed.

(** ** The order and the sort on matching call numbers *)

(** C4: on any collection of books whose call numbers match the grammar
    (distinct or not), [__lt__] is irreflexive and transitive, and the sort
    is a function of the collection that completes without an exception:
    its output is a permutation of the input in which no book is before an
    earlier one, that output is what [print_books] prints, and sorting it
    again returns it unchanged. *)
Theorem comparator_strict_order bs :
  Forall (fun b => accepts Book.pattern (callnum b)) bs ->
  (forall a, In a bs -> Book.__lt__ a a = ret false) /\
  (forall a b c, In a bs -> In b bs -> In c bs ->
     Book.__lt__ a b = ret true -> Book.__lt__ b c = ret true ->
     Book.__lt__ a c = ret true) /\
  (exists out,
     sorted Book.__lt__ bs = ret out /\
     Permutation bs out /\
     StronglySorted (fun u v => Book.__lt__ v u = ret false) out /\
     print_books bs = (map Book.__repr__ out, Ok tt) /\
     sorted Book.__lt__ out = ret out).
Proof.
  intros Hacc. pose proof (accepts_Forall _ Hacc) as Hm.
  rewrite Forall_forall in Hm.
  split; [|split].
  - intros a Ha. rewrite (lt_before a a) by auto.
    rewrite before_irrefl. reflexivity.
  - intros a b c Ha Hb Hc.
    rewrite (lt_before a b), (lt_before b c), (lt_before a c) by auto.
    intros H1 H2. apply ret_inj in H1. apply ret_inj in H2.
    rewrite (before_trans _ _ _ H1 H2). reflexivity.
  - destruct (sorted_matching bs (accepts_Forall _ Hacc))
      as (out & Hs & Hp & Ho).
    assert (Hmo : Forall (fun b => matches b = true) out).
    { rewrite Forall_forall. intros z Hz. apply Hm.
      now apply (Permutation_in _ (Permutation_sym Hp)). }
    exists out. repeat split; auto.
    + clear Hs Hp. induction Ho as [|u l Hl IH Hu]; constructor.
      * apply IH. now inversion Hmo.
      * inversion Hmo as [|? ? Mu Ml]; subst.
        rewrite Forall_forall in *. intros v Hv.
        rewrite (lt_before v u) by auto.
        specialize (Hu v Hv). unfold not_after in Hu. rewrite Hu.
        reflexivity.
    + unfold print_books. rewrite Hs, bind_ret. apply print_each_repr.
    + now apply sorted_of_sorted.
Qed.

Lemma comparator_strict_order_witness :
  let l87 := mkBook (lit "QA76.73.P98 L87 2013") (lit "Learning Python")
                    (lit "Lutz, Mark") in
  let m37 := mkBook (lit "QA76.73.P98 M37 2019") (lit "Python Crash Course")
                    (lit "Matthes, Eric") in
  exists out,
    sorted Book.__lt__ [m37; l87] = ret out /\
    Permutation [m37; l87] out /\
    StronglySorted (fun u v => Book.__lt__ v u = ret false) out /\
    print_books [m37; l87] = (map Book.__repr__ out, Ok tt) /\
    sorted Book.__lt__ out = ret out.
Proof.
  intros l87 m37.
  apply (comparator_strict_order [m37; l87]).
  repeat constructor; apply matches_accepts; vm_compute; reflexivity.
Defined.

(** ** Sorting with a call number that does not match *)

(** The claim of C9 read literally fails on a collection of one book: the
    sort makes no comparison, so nothing is parsed and nothing raises. *)
Lemma single_invalid_book_sorts :
  let b := mkBook (lit "not a call number") (lit "T") (lit "A") in
  Book.call_num_parse b = ([lit "invalid call number"], Ok None) /\
  sorted Book.__lt__ [b] = ret [b] /\
  print_books [b] = ([Book.__repr__ b], Ok tt).
Proof. repeat split; vm_compute; reflexivity. Qed.

(** C9 (amended): if the call number of either operand does not match the
    grammar, [__lt__] raises [TypeError]; so sorting, and printing, a
    collection of two or more books one of which has such a call number
    raises instead of producing an ordering.  A collection of one book is
    sorted and printed whatever its call number: the sort returns it as it
    is under any comparator, so without a comparison and without a line on
    the standard output, and [print_books] prints the book and nothing
    else. *)
Theorem unmatched_comparison_raises :
  (forall a b,
     ~ accepts Book.pattern (callnum a) \/ ~ accepts Book.pattern (callnum b) ->
     outcome (Book.__lt__ a b) = Raise TypeError) /\
  (forall bs,
     2 <= length bs ->
     Exists (fun b => ~ accepts Book.pattern (callnum b)) bs ->
     outcome (sorted Book.__lt__ bs) = Raise TypeError /\
     outcome (print_books bs) = Raise TypeError) /\
  (forall b,
     (forall lt : Book -> Book -> M bool, sorted lt [b] = ret [b]) /\
     sorted Book.__lt__ [b] = ret [b] /\
     print_books [b] = ([Book.__repr__ b], Ok tt)).
Proof.
  split; [|split].
  - intros a b [H|H]; apply lt_unmatched; [left|right];
      now apply not_accepts_unmatched.
  - intros bs Hlen Hex.
    assert (H : outcome (sorted Book.__lt__ bs) = Raise TypeError).
    { apply sorted_unmatched; [exact Hlen|].
      apply Exists_exists in Hex.
      destruct Hex as (b & Hb & Hn). exists b. split; [exact Hb|].
      exact (not_accepts_unmatched _ Hn). }
    split; [exact H|]. unfold print_books. apply outcome_bind_raise. exact H.
  - intros b. split; [|split].
    + intros lt. apply sorted_single.
    + apply sorted_single.
    + unfold print_books. rewrite sorted_single, bind_ret.
      apply print_each_repr.
Qed.

Lemma unmatched_comparison_raises_witness :
  outcome (sorted Book.__lt__
             [mkBook (lit "QA76.73.P98 L87 2013") [] [];
              mkBook (lit "not a call number") [] []]) = Raise TypeError.
Proof.
  apply (proj1 (proj2 unmatched_comparison_raises)); [simpl; lia|].
  apply Exists_cons_tl, Exists_cons_hd.
  apply re_match_None. vm_compute. reflexivity.
Defined.

(** ** The returned tuple *)

Lemma decimal_ascii c :
  isdigit_ascii c = true -> decimal c = Some (c - 0x30)%N.
Proof.
  intros H.
  change (decimal c)
    with (if N.leb 0x30 c && N.leb c 0x39
          then Some (N.modulo (c - 0x30) 10)
          else decimal_in (tl decimal_runs) c).
  unfold isdigit_ascii in H. rewrite H.
  apply andb_true_iff in H. rewrite !N.leb_le in H.
  rewrite N.mod_small by lia. reflexivity.
Qed.

(** Two runs of ASCII digits of the same length compare as numbers the way
    they compare as strings, from any two accumulated values. *)
Lemma int_from_ascii_order s : forall t a b,
  length s = length t ->
  forallb isdigit_ascii s = true -> forallb isdigit_ascii t = true ->
  exists n m,
    int_from a s = Some n /\ int_from b t = Some m /\
    (a < b -> n < m)%Z /\ (b < a -> m < n)%Z /\
    (a = b -> Z.ltb n m = str_ltb s t).
Proof.
  induction s as [|x s IH]; intros [|y t] a b Hlen Hs Ht;
    try discriminate Hlen.
  - exists a, b. simpl. repeat split; auto.
    intros ->. apply Z.ltb_irrefl.
  - simpl in Hs, Ht. apply andb_true_iff in Hs, Ht.
    destruct Hs as [Hx Hs], Ht as [Hy Ht].
    simpl int_from. rewrite (decimal_ascii _ Hx), (decimal_ascii _ Hy).
    injection Hlen as Hlen.
    destruct (IH t (10 * a + Z.of_N (x - 0x30))%Z
                   (10 * b + Z.of_N (y - 0x30))%Z Hlen Hs Ht)
      as (n & m & En & Em & Hlt & Hgt & Heq).
    exists n, m.
    unfold isdigit_ascii in Hx, Hy. apply andb_true_iff in Hx, Hy.
    rewrite !N.leb_le in Hx, Hy.
    split; [exact En|]. split; [exact Em|].
    split; [|split].
    + intros Hab. apply Hlt. lia.
    + intros Hab. apply Hgt. lia.
    + intros ->. simpl str_ltb.
      destruct (N.ltb x y) eqn:E1.
      * apply N.ltb_lt in E1. apply Z.ltb_lt. apply Hlt. lia.
      * apply N.ltb_ge in E1. destruct (N.eqb x y) eqn:E2.
        -- apply N.eqb_eq in E2. subst y. now apply Heq.
        -- apply N.eqb_neq in E2. apply Z.ltb_ge.
           assert (m < n)%Z by (apply Hgt; lia). lia.
Qed.

(** The claim of C10 read literally fails in its last part: [\d] admits
    every Unicode decimal digit and [int] reads them all, so a year in
    Arabic-Indic digits (U+0660..U+0669) is below 2020 as a number and
    above "2020" as a string. *)
Lemma unicode_year_counterexample :
  let y1 := [0x662; 0x660; 0x661; 0x669]%N in
  let y2 := lit "2020" in
  let a := mkBook (lit "A1.B1 " ++ y1) [] [] in
  let b := mkBook (lit "A1.B1 " ++ y2) [] [] in
  Book.call_num_parse a =
    ret (Some (mkParts (Some (lit "A")) (lit "1.") (lit "B1") (Some y1))) /\
  Book.call_num_parse b =
    ret (Some (mkParts (Some (lit "A")) (lit "1.") (lit "B1") (Some y2))) /\
  length y1 = 4 /\ forallb isdecimal y1 = true /\
  length y2 = 4 /\ forallb isdecimal y2 = true /\
  int y1 = ret 2019%Z /\ int y2 = ret 2020%Z /\
  Book.__lt__ a b = ret true /\
  Z.ltb 2019 2020 = true /\ str_ltb y1 y2 = false.
Proof. repeat split; vm_compute; reflexivity. Qed.

(** C10 (amended): when [call_num_parse] succeeds it prints nothing and
    returns a tuple whose class is a non-empty string of letters [A-Z],
    whose subject is a non-empty string ending in a period, whose cutter is
    non-empty and whose year is [None] or a string of exactly four decimal
    digits; so [int(year)] in the comparator never fails.  When the two
    years are written in the digits [0-9], the comparison of their numbers
    is the comparison of the two strings. *)
Theorem parsed_tuple_shape :
  (forall b out p,
     Book.call_num_parse b = (out, Ok (Some p)) ->
     out = [] /\
     (exists cls, class1 p = Some cls /\ cls <> [] /\
                  forallb isupper_AZ cls = true) /\
     (exists x, subject p = x ++ [0x2E%N]) /\
     cutter p <> [] /\
     (year p = None \/
      exists y, year p = Some y /\ length y = 4 /\
                forallb isdecimal y = true) /\
     (exists v, Book.year_of (year p) = ret v)) /\
  (forall a b pa pb ya yb,
     outcome (Book.call_num_parse a) = Ok (Some pa) ->
     outcome (Book.call_num_parse b) = Ok (Some pb) ->
     year pa = Some ya -> year pb = Some yb ->
     forallb isdigit_ascii ya = true -> forallb isdigit_ascii yb = true ->
     exists na nb,
       int ya = ret na /\ int yb = ret nb /\ Z.ltb na nb = str_ltb ya yb).
Proof.
  split.
  - intros b out p H.
    assert (Ho : outcome (Book.call_num_parse b) = Ok (Some p))
      by (rewrite H; reflexivity).
    destruct (parsed_pieces _ _ Ho) as (c & Wc & -> & Pc).
    rewrite Pc in H. injection H as <-.
    destruct (wf_elim _ Wc) as (Hcut & He & Hy & Hcls & Hne).
    split; [reflexivity|]. split; [|split; [|split; [|split]]].
    + exists (cn_class c). auto.
    + exists (cn_int c ++ frac_text (cn_frac c) ++ cn_ws1 c).
      unfold pieces, subject_text. simpl subject.
      now rewrite <- !app_assoc.
    + unfold pieces. simpl cutter.
      destruct (cn_cutter c) as [|k ks]; [discriminate Hcut|].
      destruct (cn_extra c); discriminate.
    + unfold pieces. simpl year.
      destruct (cn_year c) as [y|]; [right|now left].
      exists y. simpl in Hy. apply digits_elim in Hy.
      destruct Hy as [Hd Hl]. repeat split; auto. lia.
    + unfold pieces. simpl year.
      destruct (year_of_digits _ Hy) as [-> _]. eauto.
  - intros a b pa pb ya yb Ha Hb Ya Yb Da Db.
    destruct (parsed_pieces _ _ Ha) as (ca & Wa & -> & _).
    destruct (parsed_pieces _ _ Hb) as (cb & Wb & -> & _).
    destruct (wf_elim _ Wa) as (_ & _ & Hya & _).
    destruct (wf_elim _ Wb) as (_ & _ & Hyb & _).
    unfold pieces in Ya, Yb. simpl year in Ya, Yb.
    rewrite Ya in Hya. rewrite Yb in Hyb. simpl in Hya, Hyb.
    apply digits_elim in Hya, Hyb.
    destruct Hya as [_ La], Hyb as [_ Lb].
    destruct (int_from_ascii_order ya yb 0 0) as (n & m & En & Em & _ & _ & E);
      [lia|assumption|assumption|].
    exists n, m. unfold int. rewrite En, Em.
    destruct ya; [simpl in La; lia|]. destruct yb; [simpl in Lb; lia|].
    repeat split. now apply E.
Qed.

Lemma parsed_tuple_shape_witness :
  exists na nb,
    int (lit "2013") = ret na /\ int (lit "2019") = ret nb /\
    Z.ltb na nb = str_ltb (lit "2013") (lit "2019").
Proof.
  apply (proj2 parsed_tuple_shape
           (mkBook (lit "QA76.73.P98 L87 2013") [] [])
           (mkBook (lit "QA76.73.P98 M37 2019") [] [])
           (mkParts (Some (lit "QA")) (lit "76.73.") (lit "P98 L87")
                    (Some (lit "2013")))
           (mkParts (Some (lit "QA")) (lit "76.73.") (lit "P98 M37")
                    (Some (lit "2019"))));
    vm_compute; reflexivity.
Defined.

(** ** Reading the file *)

Lemma read_lines_cons line f acc :
  read_lines (line :: f) acc =
  bind (getitem (fields line) 0) (fun title =>
  bind (getitem (fields line) 1) (fun author =>
  bind (getitem (fields line) 2) (fun callnum =>
  read_lines f (acc ++ [mkBook callnum title author])))).
Proof. reflexivity. Qed.

Lemma read_lines_ok f : forall acc,
  Forall (fun l => 3 <= length (fields l)) f ->
  read_lines f acc = ret (acc ++ map book_of_line f).
Proof.
  induction f as [|line f IH]; intros acc H.
  - simpl. now rewrite app_nil_r.
  - inversion H as [|? ? Hl Hf]; subst.
    rewrite read_lines_cons. cbn [map]. unfold book_of_line at 1.
    destruct (fields line) as [|f0 [|f1 [|f2 more]]]; simpl in Hl; try lia.
    change (getitem (f0 :: f1 :: f2 :: more) 0) with (ret f0).
    change (getitem (f0 :: f1 :: f2 :: more) 1) with (ret f1).
    change (getitem (f0 :: f1 :: f2 :: more) 2) with (ret f2).
    run_ret. rewrite IH by assumption. cbn [nth].
    now rewrite <- app_assoc.
Qed.

Lemma read_lines_short f : forall acc,
  Exists (fun l => length (fields l) < 3) f ->
  outcome (read_lines f acc) = Raise IndexError.
Proof.
  induction f as [|line f IH]; intros acc H.
  - inversion H.
  - rewrite read_lines_cons.
    destruct (fields line) as [|f0 [|f1 [|f2 more]]] eqn:E;
      try reflexivity.
    change (getitem (f0 :: f1 :: f2 :: more) 0) with (ret f0).
    change (getitem (f0 :: f1 :: f2 :: more) 1) with (ret f1).
    change (getitem (f0 :: f1 :: f2 :: more) 2) with (ret f2).
    run_ret. apply IH. inversion H as [? ? Hl|? ? Hf]; subst; [|assumption].
    rewrite E in Hl. simpl in Hl. lia.
Qed.

(** The claim of C6 read literally fails on a line of four fields: the
    first three are taken and the fourth is dropped without an error. *)
Lemma four_fields_accepted :
  let line := lit "T" ++ [0x09%N] ++ lit "A" ++ [0x09%N] ++ lit "QA1.B1" ++
              [0x09%N] ++ lit "extra" ++ [0x0A%N] in
  length (fields line) = 4 /\
  read_books [line] = ret [mkBook (lit "QA1.B1") (lit "T") (lit "A")].
Proof. split; vm_compute; reflexivity. Qed.

(** C6 (amended): a line that splits, once stripped, into fewer than three
    tab-separated fields makes [read_books] raise [IndexError] from the
    field indexing, and no list of books is returned; when every line has
    three fields or more, each gives one book made of its first three
    fields, further fields being ignored. *)
Theorem field_count_handling f :
  (Exists (fun l => length (fields l) < 3) f ->
   outcome (read_books f) = Raise IndexError) /\
  (Forall (fun l => 3 <= length (fields l)) f ->
   read_books f = ret (map book_of_line f)).
Proof.
  split; intros H.
  - now apply read_lines_short.
  - unfold read_books. now rewrite read_lines_ok.
Qed.

Lemma field_count_handling_witness :
  outcome (read_books [lit "Learning Python" ++ [0x09%N] ++ lit "Lutz, Mark"])
  = Raise IndexError.
Proof.
  apply (proj1 (field_count_handling _)).
  apply Exists_cons_hd. vm_compute. lia.
Defined.

(** ** The length of the subject number *)

Lemma starts_with_app p q w s :
  forallb q w = true -> (forall c, q c = true -> p c = false) ->
  starts_with p s = false -> starts_with p (w ++ s) = false.
Proof.
  destruct w as [|c w]; simpl; auto.
  intros H Hq _. apply andb_true_iff in H. destruct H as [Hc _]. auto.
Qed.

(** A maximal run of characters of one class is determined by the string. *)
Lemma span_eq p l1 : forall s1 l2 s2,
  l1 ++ s1 = l2 ++ s2 ->
  forallb p l1 = true -> forallb p l2 = true ->
  starts_with p s1 = false -> starts_with p s2 = false ->
  l1 = l2 /\ s1 = s2.
Proof.
  induction l1 as [|x l1 IH]; intros s1 [|y l2] s2 E H1 H2 N1 N2; simpl in *.
  - auto.
  - subst s1. simpl in N1. apply andb_true_iff in H2. destruct H2 as [H2 _].
    congruence.
  - subst s2. simpl in N2. apply andb_true_iff in H1. destruct H1 as [H1 _].
    congruence.
  - injection E as -> E.
    apply andb_true_iff in H1, H2. destruct H1 as [_ H1], H2 as [_ H2].
    destruct (IH _ _ _ E H1 H2 N1 N2) as [-> ->]. auto.
Qed.

(** A run of one class at the start of a string is no longer than the
    maximal one. *)
Lemma span_prefix p l1 : forall s1 l2 s2,
  l1 ++ s1 = l2 ++ s2 -> forallb p l2 = true ->
  starts_with p s1 = false -> length l2 <= length l1.
Proof.
  induction l1 as [|x l1 IH]; intros s1 [|y l2] s2 E H2 N1; simpl in *;
    try lia.
  - subst s1. simpl in N1. apply andb_true_iff in H2. destruct H2 as [H2 _].
    congruence.
  - injection E as -> E.
    apply andb_true_iff in H2. destruct H2 as [_ H2].
    specialize (IH _ _ _ E H2 N1). lia.
Qed.

Lemma wf_subject c :
  wf c = true ->
  forallb isspace (cn_ws0 c) = true /\ digits 1 4 (cn_int c) = true /\
  opt_ok (digits 1 4) (cn_frac c) = true /\
  forallb isspace (cn_ws1 c) = true /\ forallb isspace (cn_ws2 c) = true.
Proof.
  unfold wf. rewrite !andb_true_iff.
  intros ((((((((((_ & H0) & Hd) & Hf) & H1) & H2) & _) & _) & _) & _) & _).
  auto.
Qed.

(** What follows the digits of the subject number is not a digit. *)
Lemma after_int_not_digit f w s :
  forallb isspace w = true ->
  starts_with isdecimal (frac_text f ++ w ++ [0x2E%N] ++ s) = false.
Proof.
  intros Hw. destruct f as [f|]; [reflexivity|]. simpl app.
  apply (starts_with_app isdecimal isspace); auto using space_not_decimal.
Qed.

(** In a call number that matches, the digits that follow the class are at
    most four. *)
Lemma subject_number_bound c nl cls ws ds more :
  wf c = true ->
  text c ++ nl = cls ++ ws ++ ds ++ more ->
  forallb isupper_AZ cls = true -> forallb isspace ws = true ->
  forallb isdecimal ds = true -> ds <> [] ->
  length ds <= 4.
Proof.
  intros Hwf E Hcls Hws Hds Hne.
  destruct (wf_elim _ Hwf) as (_ & _ & _ & Hc & _).
  destruct (wf_subject _ Hwf) as (H0 & Hd & _ & H1 & _).
  destruct (digits_nonempty _ _ _ Hd) as (x & xs & Ei & Hx & Hxs).
  apply digits_elim in Hd. destruct Hd as [Hd Hlen].
  destruct ds as [|d ds]; [congruence|].
  simpl in Hds. apply andb_true_iff in Hds. destruct Hds as [Hd1 Hds].
  unfold text, subject_text in E. rewrite <- !app_assoc in E.
  rewrite Ei in E.
  (* the class *)
  apply span_eq with (p := isupper_AZ) in E; auto.
  2:{ apply (starts_with_app isupper_AZ isspace); auto using space_not_upper.
      simpl. now apply decimal_not_upper. }
  2:{ apply (starts_with_app isupper_AZ isspace); auto using space_not_upper.
      simpl. now apply decimal_not_upper. }
  destruct E as [_ E].
  (* the white space before the number *)
  apply span_eq with (p := isspace) in E; auto.
  2:{ simpl. now apply decimal_not_space. }
  2:{ simpl. now apply decimal_not_space. }
  destruct E as [_ E].
  (* the number *)
  rewrite <- Ei in E.
  apply span_prefix with (p := isdecimal) in E.
  - lia.
  - simpl. now rewrite Hd1, Hds.
  - now apply after_int_not_digit.
Qed.

(** C8: a call number whose class letters are followed (after optional
    white space) by five or more digits does not match, whatever comes
    after: [call_num_parse] yields no tuple.  And the subject of every tuple
    that is returned is a number of one to four digits, an optional period
    with one to four digits more, optional white space and a period. *)
Theorem long_subject_rejected :
  (forall cls ws ds more t a,
     forallb isupper_AZ cls = true ->
     forallb isspace ws = true ->
     forallb isdecimal ds = true ->
     5 <= length ds ->
     re_match Book.pattern (cls ++ ws ++ ds ++ more) = None /\
     Book.call_num_parse (mkBook (cls ++ ws ++ ds ++ more) t a) =
     ([lit "invalid call number"], Ok None)) /\
  (forall b p,
     outcome (Book.call_num_parse b) = Ok (Some p) ->
     exists n f w,
       subject p = n ++ frac_text f ++ w ++ [0x2E%N] /\
       digits 1 4 n = true /\ opt_ok (digits 1 4) f = true /\
       forallb isspace w = true).
Proof.
  split.
  - intros cls ws ds more t a Hcls Hws Hds Hlen.
    assert (N : ~ accepts Book.pattern (cls ++ ws ++ ds ++ more)).
    { intros [st' Hr].
      destruct (pattern_run _ _ Hr) as (c & nl & Hwf & E & _).
      symmetry in E.
      assert (length ds <= 4).
      { apply (subject_number_bound c nl cls ws ds more); auto.
        intros ->. simpl in Hlen. lia. }
      lia. }
    split.
    + now apply re_match_None.
    + apply unmatched_parse. now apply not_accepts_unmatched.
  - intros b p H.
    destruct (parsed_pieces _ _ H) as (c & Wc & -> & _).
    destruct (wf_subject _ Wc) as (_ & Hd & Hf & H1 & _).
    exists (cn_int c), (cn_frac c), (cn_ws1 c). auto.
Qed.

Lemma long_subject_rejected_witness :
  re_match Book.pattern (lit "QA" ++ [] ++ lit "12345" ++ lit ".C15") = None /\
  Book.call_num_parse
    (mkBook (lit "QA" ++ [] ++ lit "12345" ++ lit ".C15") [] []) =
  ([lit "invalid call number"], Ok None).
Proof.
  apply (proj1 long_subject_rejected);
    [reflexivity|reflexivity|reflexivity|simpl; lia].
Defined.

(** ** The match the search finds first *)

Lemma takes_eq r l l' s' g g' :
  takes r l s' g -> l = l' -> g = g' -> takes r l' s' g'.
Proof. now intros H <- <-. Qed.

Lemma takes_Cat r1 r2 l1 l2 s' g1 g2 :
  takes r1 l1 (l2 ++ s') g1 -> takes r2 l2 s' g2 ->
  takes (r1 +++ r2) (l1 ++ l2) s' (g2 ++ g1).
Proof.
  intros H1 H2 A n m k a Hk. simpl exec. rewrite <- app_assoc.
  apply H1. apply H2.
  rewrite length_app, Nat.add_assoc, <- app_assoc in Hk. exact Hk.
Qed.

Lemma takes_Rep cl lo hi l s' :
  forallb (in_class cl) l = true ->
  lo <= length l -> upto hi (length l) ->
  starts_with (in_class cl) s' = false \/ hi = Some (length l) ->
  takes (Rep cl lo hi) l s' [].
Proof.
  intros Hl Hlo Hhi Hs A n m k a Hk. simpl exec.
  apply rep_greedy; auto.
  destruct s' as [|c s']; auto. simpl.
  destruct Hs as [Hs| ->].
  - simpl in Hs. now rewrite Hs.
  - simpl. rewrite Nat.ltb_irrefl. apply andb_false_r.
Qed.

Lemma takes_Lit c s' : takes (Lit c) [c] s' [].
Proof.
  intros A n m k a Hk. simpl. unfold char_eqb. rewrite N.eqb_refl.
  rewrite Nat.add_1_r in Hk. exact Hk.
Qed.

Lemma takes_Grp name r l s' :
  takes r l s' [] -> takes (Grp name r) l s' [(name, l)].
Proof.
  intros H A n m k a Hk. simpl exec. apply H. simpl.
  now rewrite firstn_eaten.
Qed.

Lemma takes_Opt r l s' g : takes r l s' g -> takes (Opt r) l s' g.
Proof.
  intros H A n m k a Hk. simpl exec. now rewrite (H _ _ _ _ _ Hk).
Qed.

Lemma takes_Opt_skip r s' : refuses r s' -> takes (Opt r) [] s' [].
Proof.
  intros H A n m k a Hk. simpl exec. simpl in Hk.
  rewrite Nat.add_0_r in Hk. now rewrite H.
Qed.

Lemma takes_Eol : takes Eol [] [] [].
Proof.
  intros A n m k a Hk. simpl in *. now rewrite Nat.add_0_r in Hk.
Qed.

Lemma refuses_Rep cl lo hi s' :
  starts_with (in_class cl) s' = false -> 1 <= lo ->
  refuses (Rep cl lo hi) s'.
Proof.
  intros Hs Hlo A n m k. simpl exec.
  assert (E : Nat.leb lo 0 = false) by (apply Nat.leb_gt; lia).
  destruct s' as [|c s']; simpl; rewrite E; auto.
  simpl in Hs. now rewrite Hs.
Qed.

Lemma refuses_Cat r1 r2 s' : refuses r1 s' -> refuses (r1 +++ r2) s'.
Proof. intros H A n m k. simpl. apply H. Qed.

Lemma refuses_Grp name r s' : refuses r s' -> refuses (Grp name r) s'.
Proof. intros H A n m k. simpl. apply H. Qed.

Lemma refuses_Lit c s' :
  starts_with (fun x => char_eqb x c) s' = false -> refuses (Lit c) s'.
Proof.
  intros Hs A n m k. simpl. destruct s' as [|x s']; auto.
  simpl in Hs. now rewrite Hs.
Qed.

Lemma refuses_Lit_Cat c r s' : refuses r s' -> refuses (Lit c +++ r) (c :: s').
Proof.
  intros H A n m k. simpl. unfold char_eqb. rewrite N.eqb_refl. apply H.
Qed.

Lemma refuses_cutter s' :
  starts_with isupper_AZ s' = false -> refuses re_cutter s'.
Proof.
  intros H. apply refuses_Cat. apply refuses_Rep; auto.
Qed.

Lemma takes_cutter l s' :
  is_cutter l = true -> starts_with isdecimal s' = false ->
  takes re_cutter l s' [].
Proof.
  intros Hl Hs.
  destruct l as [|c [|d ds]]; try discriminate Hl.
  unfold is_cutter in Hl. apply andb_true_iff in Hl. destruct Hl as [Hc Hd].
  apply (takes_Cat _ _ [c] (d :: ds) s' [] []).
  - apply takes_Rep; simpl; auto. now rewrite Hc.
  - apply takes_Rep; simpl; auto. lia.
Qed.

Lemma space_not_period c : isspace c = true -> char_eqb c 0x2E%N = false.
Proof.
  intros H. unfold char_eqb. destruct (N.eqb c 0x2E) eqn:E; auto.
  apply N.eqb_eq in E. subst c. discriminate H.
Qed.

(** The subject, when what follows it does not start with a digit. *)
Lemma takes_subject w0 d f w1 s' :
  forallb isspace w0 = true -> digits 1 4 d = true ->
  opt_ok (digits 1 4) f = true -> forallb isspace w1 = true ->
  starts_with isdecimal s' = false ->
  takes re_subject (w0 ++ d ++ frac_text f ++ w1 ++ [0x2E%N]) s' [].
Proof.
  intros H0 Hd Hf H1 Hs.
  destruct (digits_nonempty _ _ _ Hd) as (x & xs & Ed & Hx & Hxs).
  apply digits_elim in Hd. destruct Hd as [Hd Hdl].
  unfold re_subject.
  apply (takes_Cat _ _ w0 _ s' [] []).
  { apply takes_Rep; simpl; auto; [lia|]. left.
    rewrite Ed. simpl. now apply decimal_not_space. }
  apply (takes_Cat _ _ d _ s' [] []).
  { apply takes_Rep; simpl; auto; try lia. left.
    rewrite <- !app_assoc. now apply after_int_not_digit. }
  apply (takes_Cat _ _ (frac_text f) _ s' [] []).
  { destruct f as [f|]; simpl frac_text.
    - apply takes_Opt.
      apply (takes_Cat _ _ [0x2E%N] f _ [] []); [apply takes_Lit|].
      simpl in Hf. apply digits_elim in Hf. destruct Hf as [Hf Hfl].
      apply takes_Rep; simpl; auto; try lia. left.
      rewrite <- app_assoc.
      apply (starts_with_app isdecimal isspace); auto using space_not_decimal.
    - apply takes_Opt_skip.
      destruct w1 as [|w w1]; simpl app.
      + apply refuses_Lit_Cat. apply refuses_Rep; auto.
      + apply refuses_Cat. apply refuses_Lit. simpl.
        simpl in H1. apply andb_true_iff in H1. destruct H1 as [Hw _].
        now apply space_not_period. }
  apply (takes_Cat _ _ w1 [0x2E%N] s' [] []).
  { apply takes_Rep; simpl; auto. lia. }
  apply takes_Lit.
Qed.

Lemma takes_year y :
  opt_ok (digits 4 4) y = true ->
  takes (Opt re_year) (opt_text y) []
        (match y with Some x => [("year"%string, x)] | None => [] end).
Proof.
  intros Hy. destruct y as [y|]; simpl.
  - apply digits_elim in Hy. destruct Hy as [Hd Hl].
    apply takes_Opt, takes_Grp. apply takes_Rep; simpl; auto; lia.
  - apply takes_Opt_skip, refuses_Grp. apply refuses_Rep; auto; lia.
Qed.

Lemma year_not_space y :
  opt_ok (digits 4 4) y = true -> starts_with isspace (opt_text y ++ []) = false.
Proof.
  destruct y as [y|]; simpl; auto. intros H.
  destruct (digits_nonempty _ _ _ H) as (x & xs & -> & Hx & _).
  simpl. now apply decimal_not_space.
Qed.

Lemma year_not_upper y :
  opt_ok (digits 4 4) y = true ->
  starts_with isupper_AZ (opt_text y ++ []) = false.
Proof.
  destruct y as [y|]; simpl; auto. intros H.
  destruct (digits_nonempty _ _ _ H) as (x & xs & -> & Hx & _).
  simpl. now apply decimal_not_upper.
Qed.

Lemma cutter_starts l s :
  is_cutter l = true ->
  starts_with isspace (l ++ s) = false /\
  starts_with isdecimal (l ++ s) = false.
Proof.
  intros H. destruct (cutter_shape _ H) as (c & x & z & -> & Hc & _).
  simpl. split; [now apply upper_not_space|now apply upper_not_decimal].
Qed.

(** What follows a cutter does not start with a digit when the year is set
    off by white space. *)
Lemma set_off_not_digit w y :
  forallb isspace w = true -> (y <> None -> w <> []) ->
  starts_with isdecimal (w ++ opt_text y ++ []) = false.
Proof.
  intros Hw Hy. destruct w as [|c w].
  - destruct y as [y|]; [now destruct Hy|reflexivity].
  - simpl in *. apply andb_true_iff in Hw. destruct Hw as [Hc _].
    now apply space_not_decimal.
Qed.

Lemma takes_tail w3 e w4 y :
  forallb isspace w3 = true -> opt_ok is_cutter e = true ->
  forallb isspace w4 = true -> opt_ok (digits 4 4) y = true ->
  (y <> None -> e <> None -> w4 <> []) ->
  takes re_tail (w3 ++ opt_text e ++ w4 ++ opt_text y) []
        (match y with Some x => [("year"%string, x)] | None => [] end ++
         match e with Some x => [("extracutter"%string, x)] | None => [] end).
Proof.
  intros H3 He H4 Hy Hsep. unfold re_tail.
  assert (Hend : takes (Opt re_year +++ Eol) (opt_text y ++ []) []
                   ([] ++ match y with
                          | Some x => [("year"%string, x)]
                          | None => []
                          end)).
  { apply (takes_Cat _ _ (opt_text y) [] []); [|apply takes_Eol].
    now apply takes_year. }
  destruct e as [e|]; simpl opt_text.
  - simpl in He.
    eapply takes_eq.
    + apply (takes_Cat _ _ w3 (e ++ w4 ++ opt_text y ++ []) [] []).
      { apply takes_Rep; simpl; auto; [lia|]. left.
        rewrite app_nil_r. now apply cutter_starts. }
      apply (takes_Cat _ _ e (w4 ++ opt_text y ++ []) []).
      { apply takes_Opt, takes_Grp. apply takes_cutter; auto.
        rewrite app_nil_r. apply set_off_not_digit; auto.
        intros N. apply Hsep; congruence. }
      apply (takes_Cat _ _ w4 (opt_text y ++ []) [] []).
      { apply takes_Rep; simpl; auto; [lia|]. left.
        rewrite app_nil_r. now apply year_not_space. }
      exact Hend.
    + now rewrite !app_nil_r.
    + simpl. now rewrite !app_nil_r.
  - eapply takes_eq.
    + apply (takes_Cat _ _ (w3 ++ w4) ([] ++ [] ++ opt_text y ++ []) [] []).
      { apply takes_Rep; simpl; auto; [|lia|].
        - rewrite forallb_app. change (in_class Space) with isspace.
          now rewrite H3, H4.
        - left. rewrite app_nil_r. now apply year_not_space. }
      apply (takes_Cat _ _ [] ([] ++ opt_text y ++ []) [] []).
      { apply takes_Opt_skip, refuses_Grp, refuses_cutter.
        simpl. rewrite app_nil_r. now apply year_not_upper. }
      apply (takes_Cat _ _ [] (opt_text y ++ []) [] []).
      { apply takes_Rep; simpl; auto. left.
        rewrite app_nil_r. now apply year_not_space. }
      exact Hend.
    + simpl. now rewrite !app_nil_r, <- app_assoc.
    + simpl. now rewrite !app_nil_r.
Qed.

Lemma tail_not_digit c :
  wf c = true -> year_set_off c = true ->
  starts_with isdecimal
    (cn_ws3 c ++ opt_text (cn_extra c) ++ cn_ws4 c ++ opt_text (cn_year c))
  = false.
Proof.
  intros Hwf Hoff.
  destruct (wf_elim _ Hwf) as (_ & He & Hy & _).
  assert (H3 : forallb isspace (cn_ws3 c) = true /\
               forallb isspace (cn_ws4 c) = true).
  { unfold wf in Hwf. rewrite !andb_true_iff in Hwf. tauto. }
  destruct H3 as [H3 H4].
  unfold year_set_off, before_year in Hoff.
  destruct (cn_ws3 c) as [|w w3].
  - destruct (cn_extra c) as [e|]; simpl.
    + now apply cutter_starts.
    + rewrite <- (app_nil_r (opt_text (cn_year c))).
      apply set_off_not_digit; auto.
      intros N E. rewrite E in Hoff. simpl in Hoff.
      destruct (cn_year c); [discriminate Hoff|congruence].
  - simpl in *. apply andb_true_iff in H3. destruct H3 as [Hw _].
    now apply space_not_decimal.
Qed.

Lemma exec_Bol {A} r s m (k : state -> option A) :
  exec (Bol +++ r) (mkState 0 s m) k = exec r (mkState 0 s m) k.
Proof. reflexivity. Qed.

(** On a call number written from well-formed pieces, with its year set
    off, the match gives those pieces back. *)
Lemma match_pieces c :
  wf c = true -> year_set_off c = true ->
  re_match Book.pattern (text c) = Some (groups_of c).
Proof.
  intros Hwf Hoff.
  destruct (wf_elim _ Hwf) as (Hcut & He & Hy & Hcls & Hne).
  destruct (wf_subject _ Hwf) as (H0 & Hd & Hf & H1 & H2).
  assert (H34 : forallb isspace (cn_ws3 c) = true /\
                forallb isspace (cn_ws4 c) = true).
  { unfold wf in Hwf. rewrite !andb_true_iff in Hwf. tauto. }
  destruct H34 as [H3 H4].
  destruct (digits_nonempty _ _ _ Hd) as (x & xs & Ed & Hx & _).
  pose (tl := cn_ws3 c ++ opt_text (cn_extra c) ++ cn_ws4 c ++
              opt_text (cn_year c)).
  assert (T : takes
            (Grp "class" (Rep Upper 1 None)
             +++ Grp "subject" re_subject
             +++ Rep Space 0 None
             +++ Grp "cutter" re_cutter
             +++ re_tail)
            (text c) [] (groups_of c)).
  { eapply takes_eq.
    - apply (takes_Cat _ _ (cn_class c)
               ((cn_ws0 c ++ subject_text c) ++ cn_ws2 c ++ cn_cutter c ++ tl)
               []).
      { apply takes_Grp. apply takes_Rep; simpl; auto.
        - destruct (cn_class c); [congruence|simpl; lia].
        - left. rewrite app_nil_r, <- !app_assoc.
          apply (starts_with_app isupper_AZ isspace);
            auto using space_not_upper.
          unfold subject_text. rewrite Ed. simpl.
          now apply decimal_not_upper. }
      apply (takes_Cat _ _ (cn_ws0 c ++ subject_text c)
               (cn_ws2 c ++ cn_cutter c ++ tl) []).
      { apply takes_Grp. apply takes_subject; auto.
        rewrite app_nil_r.
        apply (starts_with_app isdecimal isspace);
          auto using space_not_decimal.
        now apply cutter_starts. }
      apply (takes_Cat _ _ (cn_ws2 c) (cn_cutter c ++ tl) [] []).
      { apply takes_Rep; simpl; auto; [lia|]. left.
        rewrite app_nil_r. now apply cutter_starts. }
      apply (takes_Cat _ _ (cn_cutter c) tl []).
      { apply takes_Grp. apply takes_cutter; auto.
        rewrite app_nil_r. now apply tail_not_digit. }
      apply takes_tail; auto.
      intros Ny Ne. unfold year_set_off, before_year in Hoff.
      destruct (cn_year c); [|congruence].
      destruct (cn_extra c); [|congruence].
      intros E. rewrite E in Hoff. discriminate Hoff.
    - unfold text, tl. now rewrite <- !app_assoc.
    - unfold groups_of. simpl. now rewrite <- !app_assoc. }
  unfold re_match. rewrite pattern_eq, exec_Bol.
  rewrite <- (app_nil_r (text c)).
  apply (T _ 0 []). simpl. now rewrite app_nil_r.
Qed.

(** ** Round trip *)

(** The claim of C3 read literally fails when a year follows the cutter
    with no white space in between: the digits of the year are read as
    more digits of the cutter, which the grammar also allows. *)
Lemma unseparated_year_counterexample :
  let c := mkCallno (lit "QA") [] (lit "76") (Some (lit "73")) [] []
                    (lit "C15") [] None [] (Some (lit "2019")) in
  wf c = true /\
  text c = lit "QA76.73.C152019" /\
  pieces c = mkParts (Some (lit "QA")) (lit "76.73.") (lit "C15")
                     (Some (lit "2019")) /\
  Book.call_num_parse (mkBook (text c) [] []) =
  ret (Some (mkParts (Some (lit "QA")) (lit "76.73.") (lit "C152019") None)).
Proof. repeat split; vm_compute; reflexivity. Qed.

(** C3 (amended): for every string written from valid pieces (a class of
    letters [A-Z], a subject of one to four digits with an optional
    fraction and a period, a cutter, an optional extracutter, an optional
    year of four digits, with optional white space between them), provided
    that a year, when there is one, is set off by white space from the
    cutter before it, [call_num_parse] returns those pieces: the class, the
    subject without the white space around it, the cutter followed by a
    single space and the extracutter when there is one, and the year.  In
    particular "QA76.73.C15 B73 2019" gives the cutter "C15 B73" and the
    year "2019". *)
Theorem parse_round_trip :
  (forall c t a,
     wf c = true -> year_set_off c = true ->
     Book.call_num_parse (mkBook (text c) t a) = ret (Some (pieces c))) /\
  (forall t a,
     Book.call_num_parse (mkBook (lit "QA76.73.C15 B73 2019") t a) =
     ret (Some (mkParts (Some (lit "QA")) (lit "76.73.") (lit "C15 B73")
                        (Some (lit "2019"))))).
Proof.
  split.
  - intros c t a Hwf Hoff. apply parse_of_groups; [exact Hwf|].
    now apply match_pieces.
  - intros t a. vm_compute. reflexivity.
Qed.

Lemma parse_round_trip_witness :
  let c := mkCallno (lit "QA") (lit " ") (lit "76") (Some (lit "73")) []
                    (lit " ") (lit "C15") [] (Some (lit "B73")) (lit " ")
                    (Some (lit "2019")) in
  Book.call_num_parse (mkBook (text c) [] []) = ret (Some (pieces c)).
Proof.
  intros c. apply (proj1 parse_round_trip); vm_compute; reflexivity.
Defined.

(** ** The scenario of the specification *)

Example end_to_end :
  main [ lit "Python Crash Course" ++ [0x09%N] ++ lit "Matthes, Eric" ++
         [0x09%N] ++ lit "QA76.73.P98 M37 2019" ++ [0x0A%N];
         lit "Learning Python" ++ [0x09%N] ++ lit "Lutz, Mark" ++
         [0x09%N] ++ lit "QA76.73.P98 L87 2013" ++ [0x0A%N] ] =
  ([ Book.__repr__ (mkBook (lit "QA76.73.P98 L87 2013")
                           (lit "Learning Python") (lit "Lutz, Mark"));
     Book.__repr__ (mkBook (lit "QA76.73.P98 M37 2019")
                           (lit "Python Crash Course")
                           (lit "Matthes, Eric")) ],
   Ok tt).
Proof. vm_compute. reflexivity. Qed.

(** * Further properties of the program *)

(** ** The monad *)

Lemma bind_ok {A B} (o : list str) (x : A) (f : A -> M B) :
  bind (o, Ok x) f = (o ++ stdout (f x), outcome (f x)).
Proof. unfold bind, stdout, outcome. now destruct (f x). Qed.

Lemma bind_raise {A B} (o : list str) e (f : A -> M B) :
  bind (o, @Raise A e) f = (o, Raise e).
Proof. reflexivity. Qed.

Lemma stdout_bind {A B} (m : M A) (f : A -> M B) :
  stdout (bind m f) =
  stdout m ++ match outcome m with
              | Ok x => stdout (f x)
              | Raise _ => []
              end.
Proof.
  destruct m as [o [x|e]].
  - rewrite bind_ok. reflexivity.
  - rewrite bind_raise. unfold stdout, outcome. simpl. now rewrite app_nil_r.
Qed.

Lemma M_eta {A} (m : M A) : m = (stdout m, outcome m).
Proof. now destruct m. Qed.

(** ** Which call numbers parse *)

Lemma spans_eq r l l' s' g g' :
  spans r l s' g -> l = l' -> g = g' -> spans r l' s' g'.
Proof. now intros H <- <-. Qed.

Lemma spans_Cat r1 r2 l1 l2 s' g1 g2 :
  spans r1 l1 (l2 ++ s') g1 -> spans r2 l2 s' g2 ->
  spans (r1 +++ r2) (l1 ++ l2) s' (g2 ++ g1).
Proof.
  intros H1 H2 n m. simpl run.
  exists (mkState (n + length l1) (l2 ++ s') (g1 ++ m)). split.
  - rewrite <- app_assoc. apply H1.
  - rewrite length_app, Nat.add_assoc, <- app_assoc. apply H2.
Qed.

Lemma spans_Rep cl lo hi l s' :
  forallb (in_class cl) l = true -> lo <= length l -> upto hi (length l) ->
  spans (Rep cl lo hi) l s' [].
Proof.
  intros Hl Hlo Hhi n m. simpl. exists l, s'. repeat split; auto.
Qed.

Lemma spans_Lit c s' : spans (Lit c) [c] s' [].
Proof.
  intros n m. simpl. exists s'. split; [reflexivity|].
  now rewrite Nat.add_1_r.
Qed.

Lemma spans_Grp name r l s' :
  spans r l s' [] -> spans (Grp name r) l s' [(name, l)].
Proof.
  intros H n m. simpl run.
  exists (mkState (n + length l) s' ([] ++ m)). split; [apply H|].
  simpl. now rewrite firstn_eaten.
Qed.

Lemma spans_Opt r l s' g : spans r l s' g -> spans (Opt r) l s' g.
Proof. intros H n m. simpl run. left. apply H. Qed.

Lemma spans_Opt_skip r s' : spans (Opt r) [] s' [].
Proof. intros n m. simpl. right. now rewrite Nat.add_0_r. Qed.

Lemma spans_Eol nl : nl = [] \/ nl = [0x0A%N] -> spans Eol [] nl [].
Proof. intros H n m. simpl. rewrite Nat.add_0_r. auto. Qed.

Lemma spans_cutter l s' : is_cutter l = true -> spans re_cutter l s' [].
Proof.
  intros Hl. destruct l as [|c [|d ds]]; try discriminate Hl.
  unfold is_cutter in Hl. apply andb_true_iff in Hl. destruct Hl as [Hc Hd].
  apply (spans_Cat _ _ [c] (d :: ds) s' [] []).
  - apply spans_Rep; simpl; auto. now rewrite Hc.
  - apply spans_Rep; simpl; auto. lia.
Qed.

Lemma spans_subject w0 d f w1 s' :
  forallb isspace w0 = true -> digits 1 4 d = true ->
  opt_ok (digits 1 4) f = true -> forallb isspace w1 = true ->
  spans re_subject (w0 ++ d ++ frac_text f ++ w1 ++ [0x2E%N]) s' [].
Proof.
  intros H0 Hd Hf H1.
  apply digits_elim in Hd. destruct Hd as [Hd Hdl].
  unfold re_subject.
  apply (spans_Cat _ _ w0 _ s' [] []).
  { apply spans_Rep; simpl; auto. lia. }
  apply (spans_Cat _ _ d _ s' [] []).
  { apply spans_Rep; simpl; auto; lia. }
  apply (spans_Cat _ _ (frac_text f) _ s' [] []).
  { destruct f as [f|]; simpl frac_text.
    - apply spans_Opt.
      apply (spans_Cat _ _ [0x2E%N] f _ [] []); [apply spans_Lit|].
      simpl in Hf. apply digits_elim in Hf. destruct Hf as [Hf Hfl].
      apply spans_Rep; simpl; auto; lia.
    - apply spans_Opt_skip. }
  apply (spans_Cat _ _ w1 [0x2E%N] s' [] []).
  { apply spans_Rep; simpl; auto. lia. }
  apply spans_Lit.
Qed.

Lemma spans_opt_group name r (e : option str) s' :
  (forall x, e = Some x -> spans r x s' []) ->
  spans (Opt (Grp name r)) (opt_text e) s'
        (match e with Some x => [(name, x)] | None => [] end).
Proof.
  intros H. destruct e as [x|]; simpl.
  - apply spans_Opt, spans_Grp. now apply H.
  - apply spans_Opt_skip.
Qed.

Lemma wf_spaces c :
  wf c = true ->
  forallb isspace (cn_ws3 c) = true /\ forallb isspace (cn_ws4 c) = true.
Proof. unfold wf. rewrite !andb_true_iff. tauto. Qed.

(** Every string written from well-formed pieces, with or without a final
    newline, is in the language of the pattern. *)
Lemma pieces_accepted c nl :
  wf c = true -> nl = [] \/ nl = [0x0A%N] ->
  accepts Book.pattern (text c ++ nl).
Proof.
  intros Hwf Hnl.
  destruct (wf_elim _ Hwf) as (Hcut & He & Hy & Hcls & Hne).
  destruct (wf_subject _ Hwf) as (H0 & Hd & Hf & H1 & H2).
  destruct (wf_spaces _ Hwf) as [H3 H4].
  assert (T : spans
            (Grp "class" (Rep Upper 1 None)
             +++ Grp "subject" re_subject
             +++ Rep Space 0 None
             +++ Grp "cutter" re_cutter
             +++ re_tail)
            (text c) nl (groups_of c)).
  { eapply spans_eq.
    - eapply (spans_Cat _ _ (cn_class c) _ nl).
      { apply spans_Grp. apply spans_Rep; simpl; auto.
        destruct (cn_class c); [congruence|simpl; lia]. }
      eapply (spans_Cat _ _ (cn_ws0 c ++ subject_text c) _ nl).
      { apply spans_Grp. now apply spans_subject. }
      eapply (spans_Cat _ _ (cn_ws2 c) _ nl [] _).
      { apply spans_Rep; simpl; auto. lia. }
      eapply (spans_Cat _ _ (cn_cutter c) _ nl).
      { apply spans_Grp. now apply spans_cutter. }
      unfold re_tail.
      eapply (spans_Cat _ _ (cn_ws3 c) _ nl [] _).
      { apply spans_Rep; simpl; auto. lia. }
      eapply (spans_Cat _ _ (opt_text (cn_extra c)) _ nl).
      { apply spans_opt_group. intros x E. rewrite E in He.
        now apply spans_cutter. }
      eapply (spans_Cat _ _ (cn_ws4 c) _ nl [] _).
      { apply spans_Rep; simpl; auto. lia. }
      eapply (spans_Cat _ _ (opt_text (cn_year c)) [] nl).
      { apply spans_opt_group. intros x E. rewrite E in Hy. simpl in Hy.
        apply digits_elim in Hy. destruct Hy as [Hy Hl].
        apply spans_Rep; simpl; auto; lia. }
      now apply spans_Eol.
    - unfold text. now rewrite !app_nil_r, <- ?app_assoc.
    - unfold groups_of. simpl. now rewrite !app_nil_r, <- ?app_assoc. }
  exists (mkState (0 + length (text c)) nl (groups_of c ++ [])).
  rewrite pattern_eq. simpl run.
  exists (mkState 0 (text c ++ nl) []). split; [auto|]. apply T.
Qed.

(** X1: [call_num_parse] returns a tuple exactly for the strings written
    from well-formed pieces (class, white space, subject number with
    optional fraction, white space, period, white space, cutter, white
    space, optional extracutter, white space, optional year), optionally
    followed by one newline. *)
Theorem parses_iff_grammar b :
  (exists p, outcome (Book.call_num_parse b) = Ok (Some p)) <->
  (exists c nl,
     wf c = true /\ callnum b = text c ++ nl /\ (nl = [] \/ nl = [0x0A%N])).
Proof.
  split.
  - intros [p Hp].
    destruct (call_num_parse_cases b)
      as [(c & nl & Hwf & E & Hnl & _)|[_ Hn]]; [eauto|].
    rewrite Hn in Hp. discriminate Hp.
  - intros (c & nl & Hwf & E & Hnl).
    assert (Hm : matches b = true).
    { apply matches_accepts. rewrite E. now apply pieces_accepted. }
    destruct (matches_pieces _ Hm) as (c' & _ & Hp).
    exists (pieces c'). now rewrite Hp.
Qed.

(** X2: [call_num_parse] never raises: it either prints nothing and returns
    a tuple, or prints the one line "invalid call number" and returns
    [None]. *)
Theorem call_num_parse_total b :
  (exists p, Book.call_num_parse b = ([], Ok (Some p))) \/
  Book.call_num_parse b = ([lit "invalid call number"], Ok None).
Proof.
  destruct (call_num_parse_cases b)
    as [(c & nl & _ & _ & _ & _ & Hp)|[_ Hn]]; eauto.
Qed.

(** X3: a call number that does not start with a letter [A-Z] (the empty
    string, a leading space, a lowercase class) does not parse. *)
Theorem bad_start_rejected s t a :
  starts_with isupper_AZ s = false ->
  Book.call_num_parse (mkBook s t a) = ([lit "invalid call number"], Ok None).
Proof.
  intros H. apply unmatched_parse.
  destruct (matches (mkBook s t a)) eqn:E; [|reflexivity].
  apply matches_accepts in E. destruct E as [st' Hr].
  destruct (pattern_run _ _ Hr) as (c & nl & Hwf & Es & _).
  destruct (wf_elim _ Hwf) as (_ & _ & _ & Hcls & Hne).
  simpl callnum in Es. rewrite Es in H. unfold text in H.
  destruct (cn_class c) as [|x xs]; [congruence|].
  simpl in H, Hcls. apply andb_true_iff in Hcls. destruct Hcls as [Hx _].
  congruence.
Qed.

Lemma bad_start_rejected_witness :
  Book.call_num_parse (mkBook [] [] []) =
  ([lit "invalid call number"], Ok None) /\
  Book.call_num_parse (mkBook (lit " QA76.73.C15") [] []) =
  ([lit "invalid call number"], Ok None).
Proof.
  split; apply bad_start_rejected; reflexivity.
Defined.

(** ** The comparator on any two books *)

Lemma lt_full a b :
  Book.__lt__ a b =
  (diags a ++ diags b,
   if matches a && matches b then Ok (before a b) else Raise TypeError).
Proof.
  unfold diags.
  destruct (matches a) eqn:Ea; destruct (matches b) eqn:Eb.
  - rewrite (lt_before _ _ Ea Eb). reflexivity.
  - destruct (matches_pieces _ Ea) as (ca & Wa & Pa).
    unfold Book.__lt__. rewrite Pa, (unmatched_parse _ Eb).
    rewrite bind_ok. cbv beta. rewrite bind_ok. cbv beta.
    reflexivity.
  - destruct (matches_pieces _ Eb) as (cb & Wb & Pb).
    unfold Book.__lt__. rewrite Pb, (unmatched_parse _ Ea).
    rewrite bind_ok. cbv beta. rewrite bind_ok. cbv beta.
    reflexivity.
  - unfold Book.__lt__.
    rewrite (unmatched_parse _ Ea), (unmatched_parse _ Eb).
    rewrite bind_ok. cbv beta. rewrite bind_ok. cbv beta.
    reflexivity.
Qed.

(** X4: on any two books, [__lt__] first parses both call numbers, so it
    prints one diagnostic for each operand that does not match, the first
    operand's first; it returns the comparison of the keys when both match
    and raises [TypeError] otherwise, and never any other exception. *)
Theorem lt_behaviour a b :
  Book.__lt__ a b =
  (diags a ++ diags b,
   if matches a && matches b then Ok (before a b) else Raise TypeError).
Proof. apply lt_full. Qed.

Lemma before_same_keys x y : book_keys x = book_keys y -> before x y = false.
Proof. intros E. unfold before. rewrite E. apply lex_ltb_irrefl. Qed.

(** X5: two books whose call numbers match are ordered one way or the
    other, never both, unless their four keys are equal; with equal keys
    neither is before the other. *)
Theorem order_trichotomy a b :
  matches a = true -> matches b = true ->
  (Book.__lt__ a b = ret true /\ Book.__lt__ b a = ret false /\
   book_keys a <> book_keys b) \/
  (Book.__lt__ a b = ret false /\ Book.__lt__ b a = ret true /\
   book_keys a <> book_keys b) \/
  (Book.__lt__ a b = ret false /\ Book.__lt__ b a = ret false /\
   book_keys a = book_keys b).
Proof.
  intros Ha Hb.
  rewrite (lt_before _ _ Ha Hb), (lt_before _ _ Hb Ha).
  assert (N : forall x y, before x y = true -> book_keys x <> book_keys y).
  { intros x y H E. rewrite (before_same_keys _ _ E) in H.
    discriminate H. }
  destruct (before a b) eqn:Eab.
  - left. rewrite (before_asym _ _ Eab). repeat split. now apply N.
  - destruct (before b a) eqn:Eba.
    + right; left. repeat split. intros E. now apply (N _ _ Eba).
    + right; right. repeat split. now apply before_total.
Qed.

Lemma order_trichotomy_witness :
  let a := mkBook (lit "QA76.73.P98 L87 2013") [] [] in
  let b := mkBook (lit "QA 76.73 . P98  L87 2013") [] [] in
  (Book.__lt__ a b = ret true /\ Book.__lt__ b a = ret false /\
   book_keys a <> book_keys b) \/
  (Book.__lt__ a b = ret false /\ Book.__lt__ b a = ret true /\
   book_keys a <> book_keys b) \/
  (Book.__lt__ a b = ret false /\ Book.__lt__ b a = ret false /\
   book_keys a = book_keys b).
Proof.
  intros a b. apply order_trichotomy; vm_compute; reflexivity.
Defined.

Lemma str_ltb_prefix l : forall x m, str_ltb l (l ++ x :: m) = true.
Proof.
  induction l as [|c l IH]; intros x m; simpl; auto.
  now rewrite N.ltb_irrefl, N.eqb_refl.
Qed.

Lemma str_eqb_prefix l x m : str_eqb l (l ++ x :: m) = false.
Proof.
  destruct (str_eqb l (l ++ x :: m)) eqn:E; [|reflexivity].
  apply str_eqb_eq in E. apply (f_equal (@length _)) in E.
  rewrite length_app in E. simpl in E. lia.
Qed.

(** X6: within one class and subject, a book whose cutter has no
    extracutter is before every book with the same cutter and an
    extracutter, whatever their years. *)
Theorem plain_cutter_first a b pa pb e :
  outcome (Book.call_num_parse a) = Ok (Some pa) ->
  outcome (Book.call_num_parse b) = Ok (Some pb) ->
  remove_spaces (class_text pa) = remove_spaces (class_text pb) ->
  remove_spaces (subject pa) = remove_spaces (subject pb) ->
  cutter pb = cutter pa ++ [0x20%N] ++ e ->
  Book.__lt__ a b = ret true /\ Book.__lt__ b a = ret false.
Proof.
  intros Ha Hb Ec Es Ek.
  rewrite (lt_parsed a b pa pb Ha Hb), (lt_parsed b a pb pa Hb Ha).
  unfold sort_keys. rewrite Ec, Es, Ek. simpl lex_ltb.
  rewrite !str_eqb_refl.
  rewrite (str_eqb_sym (cutter pa ++ 0x20%N :: e)), str_eqb_prefix.
  rewrite str_ltb_prefix. split; [reflexivity|].
  destruct (str_ltb (cutter pa ++ 0x20%N :: e) (cutter pa)) eqn:E;
    [|reflexivity].
  pose proof (str_ltb_trans _ _ _ E (str_ltb_prefix (cutter pa) 0x20%N e)) as T.
  rewrite str_ltb_irrefl in T. discriminate T.
Qed.

Lemma plain_cutter_first_witness :
  Book.__lt__ (mkBook (lit "QA76.73.C15 2019") [] [])
              (mkBook (lit "QA76.73.C15 B73 1999") [] []) = ret true /\
  Book.__lt__ (mkBook (lit "QA76.73.C15 B73 1999") [] [])
              (mkBook (lit "QA76.73.C15 2019") [] []) = ret false.
Proof.
  apply (plain_cutter_first
           (mkBook (lit "QA76.73.C15 2019") [] [])
           (mkBook (lit "QA76.73.C15 B73 1999") [] [])
           (mkParts (Some (lit "QA")) (lit "76.73.") (lit "C15")
                    (Some (lit "2019")))
           (mkParts (Some (lit "QA")) (lit "76.73.") (lit "C15 B73")
                    (Some (lit "1999")))
           (lit "B73"));
    vm_compute; reflexivity.
Defined.

Lemma remove_spaces_app s t :
  remove_spaces (s ++ t) = remove_spaces s ++ remove_spaces t.
Proof. unfold remove_spaces, replace. apply flat_map_app. Qed.

Lemma parse_pieces c t a :
  wf c = true -> year_set_off c = true ->
  Book.call_num_parse (mkBook (text c) t a) = ([], Ok (Some (pieces c))).
Proof.
  intros Hwf Hoff. apply parse_of_groups; [exact Hwf|].
  now apply match_pieces.
Qed.

(** X7: the white space between the parts of a call number has no effect
    on the order, nor have title and author: two call numbers written from
    the same class, subject number, cutter, extracutter and year, with any
    white space between them (before the period of the subject: any number
    of space characters), are not ordered either way. *)
Theorem spacing_irrelevant c c' t a t' a' :
  wf c = true -> wf c' = true ->
  year_set_off c = true -> year_set_off c' = true ->
  cn_class c = cn_class c' -> cn_int c = cn_int c' ->
  cn_frac c = cn_frac c' -> cn_cutter c = cn_cutter c' ->
  cn_extra c = cn_extra c' -> cn_year c = cn_year c' ->
  remove_spaces (cn_ws1 c) = remove_spaces (cn_ws1 c') ->
  Book.__lt__ (mkBook (text c) t a) (mkBook (text c') t' a') = ret false /\
  Book.__lt__ (mkBook (text c') t' a') (mkBook (text c) t a) = ret false.
Proof.
  intros W W' O O' Ecl Ei Ef Ek Ee Ey E1.
  pose proof (parse_pieces c t a W O) as P.
  pose proof (parse_pieces c' t' a' W' O') as P'.
  rewrite (lt_pieces _ _ c c' W W' P P'), (lt_pieces _ _ c' c W' W P' P).
  assert (K : sort_keys remove_spaces (pieces c) =
              sort_keys remove_spaces (pieces c')).
  { unfold sort_keys, pieces, class_text, subject_text.
    cbn [class1 subject cutter year].
    rewrite !remove_spaces_app, Ecl, Ei, Ef, Ek, Ee, Ey, E1. reflexivity. }
  rewrite K, lex_ltb_irrefl. split; reflexivity.
Qed.

Lemma spacing_irrelevant_witness :
  let c := mkCallno (lit "QA") [] (lit "76") (Some (lit "73")) [] []
                    (lit "C15") (lit " ") (Some (lit "B73")) (lit " ")
                    (Some (lit "2019")) in
  let c' := mkCallno (lit "QA") (lit " ") (lit "76") (Some (lit "73"))
                     (lit "  ") [0x09%N] (lit "C15") [] (Some (lit "B73"))
                     [0xA0%N] (Some (lit "2019")) in
  Book.__lt__ (mkBook (text c) (lit "T") []) (mkBook (text c') [] []) =
    ret false /\
  Book.__lt__ (mkBook (text c') [] []) (mkBook (text c) (lit "T") []) =
    ret false.
Proof.
  intros c c'. apply spacing_irrelevant; vm_compute; reflexivity.
Defined.

(** ** Lines and fields *)

Lemma split_no_tab s : no_tab s = true -> split 0x09 s = [s].
Proof.
  induction s as [|c s IH]; simpl; auto.
  intros H. apply andb_true_iff in H. destruct H as [Hc Hs].
  unfold is_tab in Hc. apply negb_true_iff in Hc. rewrite Hc.
  now rewrite (IH Hs).
Qed.

Lemma split_app s r :
  no_tab s = true -> split 0x09 (s ++ 0x09%N :: r) = s :: split 0x09 r.
Proof.
  induction s as [|c s IH]; simpl; auto.
  intros H. apply andb_true_iff in H. destruct H as [Hc Hs].
  unfold is_tab in Hc. apply negb_true_iff in Hc. rewrite Hc.
  now rewrite (IH Hs).
Qed.

Lemma split_length s : length (split 0x09 s) = S (tabs s).
Proof.
  unfold tabs. induction s as [|c s IH]; simpl; auto.
  unfold is_tab at 1. destruct (char_eqb c 0x09%N); simpl; [now rewrite IH|].
  destruct (split 0x09 s); simpl in *; lia.
Qed.

Lemma tabs_app s r : tabs (s ++ r) = tabs s + tabs r.
Proof. unfold tabs. now rewrite filter_app, length_app. Qed.

Lemma tabs_rev s : tabs (rev s) = tabs s.
Proof.
  induction s as [|c s IH]; auto.
  simpl rev. rewrite tabs_app, IH. unfold tabs. simpl.
  destruct (is_tab c); simpl; lia.
Qed.

Lemma tabs_lstrip s : tabs (lstrip s) <= tabs s.
Proof.
  induction s as [|c s IH]; simpl; auto.
  destruct (isspace c); auto.
  unfold tabs in *. simpl. destruct (is_tab c); simpl; lia.
Qed.

Lemma tabs_strip s : tabs (strip s) <= tabs s.
Proof.
  unfold strip, rstrip. rewrite tabs_rev.
  etransitivity; [apply tabs_lstrip|]. rewrite tabs_rev. apply tabs_lstrip.
Qed.

Lemma tabs_no_tab s : no_tab s = true -> tabs s = 0.
Proof.
  unfold tabs, no_tab. induction s as [|c s IH]; simpl; auto.
  intros H. apply andb_true_iff in H. destruct H as [Hc Hs].
  apply negb_true_iff in Hc. rewrite Hc. auto.
Qed.

Lemma lstrip_all_space w : forallb isspace w = true -> lstrip w = [].
Proof.
  induction w as [|c w IH]; simpl; auto.
  intros H. apply andb_true_iff in H. destruct H as [Hc Hw].
  rewrite Hc. auto.
Qed.

Lemma strip_leading w s :
  forallb isspace w = true -> strip (w ++ s) = strip s.
Proof. intros H. unfold strip. now rewrite lstrip_spaces. Qed.

Lemma read_lines_silent f : forall acc, stdout (read_lines f acc) = [].
Proof.
  induction f as [|line f IH]; intros acc; auto.
  rewrite read_lines_cons.
  destruct (fields line) as [|f0 [|f1 [|f2 more]]]; try reflexivity.
  change (getitem (f0 :: f1 :: f2 :: more) 0) with (ret f0).
  change (getitem (f0 :: f1 :: f2 :: more) 1) with (ret f1).
  change (getitem (f0 :: f1 :: f2 :: more) 2) with (ret f2).
  run_ret. apply IH.
Qed.

Lemma short_line_in f line :
  In line f -> length (fields line) < 3 ->
  read_books f = ([], Raise IndexError).
Proof.
  intros Hin Hlen. rewrite (M_eta (read_books f)).
  unfold read_books. rewrite read_lines_silent. f_equal.
  apply read_lines_short. apply Exists_exists. eauto.
Qed.

(** X8: a line that is empty or holds only white space (a blank line
    anywhere in the file, the last one included) makes [read_books] raise
    [IndexError]; nothing is printed and no book is returned. *)
Theorem blank_line_raises f line :
  In line f -> forallb isspace line = true ->
  read_books f = ([], Raise IndexError).
Proof.
  intros Hin Hw. apply (short_line_in f line Hin).
  unfold fields, strip. rewrite (lstrip_all_space _ Hw). simpl. lia.
Qed.

Lemma blank_line_raises_witness :
  read_books
    [ lit "Learning Python" ++ [0x09%N] ++ lit "Lutz, Mark" ++ [0x09%N] ++
      lit "QA76.73.P98 L87 2013" ++ [0x0A%N];
      [0x0A%N] ] = ([], Raise IndexError).
Proof.
  apply (blank_line_raises _ [0x0A%N]); [right; left|]; reflexivity.
Defined.

(** X9: a record whose title is empty or blank cannot be read: the tab
    after the title is stripped with the white space that starts the line,
    so a line of blank title, author and call number has two fields at most
    and [read_books] raises [IndexError]. *)
Theorem blank_title_raises f w a c :
  In (w ++ [0x09%N] ++ a ++ [0x09%N] ++ c ++ [0x0A%N]) f ->
  forallb isspace w = true -> no_tab a = true -> no_tab c = true ->
  read_books f = ([], Raise IndexError).
Proof.
  intros Hin Hw Ha Hc. apply (short_line_in _ _ Hin).
  unfold fields.
  change (w ++ [0x09%N] ++ a ++ [0x09%N] ++ c ++ [0x0A%N])
    with (w ++ [0x09%N] ++ (a ++ [0x09%N] ++ c ++ [0x0A%N])).
  rewrite app_assoc, strip_leading.
  2:{ rewrite forallb_app. apply andb_true_iff.
      split; [exact Hw|reflexivity]. }
  rewrite split_length.
  pose proof (tabs_strip (a ++ [0x09%N] ++ c ++ [0x0A%N])) as T.
  rewrite !tabs_app, (tabs_no_tab _ Ha), (tabs_no_tab _ Hc) in T.
  change (tabs [0x09%N]) with 1 in T. change (tabs [0x0A%N]) with 0 in T.
  lia.
Qed.

Lemma blank_title_raises_witness :
  read_books [ [] ++ [0x09%N] ++ lit "Lutz, Mark" ++ [0x09%N] ++
               lit "QA76.73.P98 L87 2013" ++ [0x0A%N] ] =
  ([], Raise IndexError).
Proof.
  apply (blank_title_raises _ [] (lit "Lutz, Mark")
           (lit "QA76.73.P98 L87 2013")); [left|..]; reflexivity.
Defined.

Lemma rstrip_trailing x c w :
  isspace c = false -> forallb isspace w = true ->
  rstrip (x ++ c :: w) = x ++ [c].
Proof.
  intros Hc Hw. unfold rstrip.
  change (x ++ c :: w) with (x ++ [c] ++ w).
  rewrite app_assoc, rev_app_distr, lstrip_spaces.
  - rewrite rev_app_distr. simpl. rewrite Hc. simpl.
    now rewrite rev_involutive.
  - rewrite forallb_forall in *. intros y Hy. apply Hw.
    now apply in_rev.
Qed.

Lemma strip_core x m z w :
  isspace x = false -> isspace z = false -> forallb isspace w = true ->
  strip ((x :: m ++ [z]) ++ w) = x :: m ++ [z].
Proof.
  intros Hx Hz Hw. unfold strip. simpl app at 1.
  rewrite lstrip_nonspace by exact Hx.
  rewrite <- app_assoc.
  exact (rstrip_trailing (x :: m) z w Hz Hw).
Qed.

Lemma fields_format_line b :
  writable b = true -> fields (format_line b) = [title b; author b; callnum b].
Proof.
  unfold writable, ends_with. rewrite !andb_true_iff.
  intros (((((((Ht & Ha) & Hc) & _) & _) & _) & Hs) & He).
  unfold fields, format_line.
  destruct (title b) as [|x t] eqn:Et; [discriminate Hs|].
  simpl in Hs. apply negb_true_iff in Hs.
  destruct (rev (callnum b)) as [|z r] eqn:Er; [discriminate He|].
  simpl in He. apply negb_true_iff in He.
  assert (Ec : callnum b = rev r ++ [z]).
  { rewrite <- (rev_involutive (callnum b)), Er. reflexivity. }
  assert (E : (x :: t) ++ [0x09%N] ++ author b ++ [0x09%N] ++
              callnum b ++ [0x0A%N] =
              (x :: (t ++ 0x09%N :: author b ++ 0x09%N :: rev r) ++ [z]) ++
              [0x0A%N]).
  { rewrite Ec. simpl. f_equal.
    repeat (rewrite <- app_assoc; simpl). reflexivity. }
  rewrite E, strip_core by (auto; reflexivity).
  assert (E' : x :: (t ++ 0x09%N :: author b ++ 0x09%N :: rev r) ++ [z] =
               (x :: t) ++ 0x09%N :: author b ++ 0x09%N :: callnum b).
  { rewrite Ec. simpl. f_equal.
    repeat (rewrite <- app_assoc; simpl). reflexivity. }
  rewrite E'.
  rewrite split_app by exact Ht.
  rewrite split_app by exact Ha.
  rewrite split_no_tab by exact Hc. reflexivity.
Qed.

Lemma one_line_format_line b :
  writable b = true -> one_line (format_line b) = true.
Proof.
  unfold writable. rewrite !andb_true_iff.
  intros (((((_ & Bt) & Ba) & Bc) & _) & _).
  unfold one_line, format_line.
  rewrite !app_assoc, rev_app_distr. cbn [rev app].
  rewrite rev_involutive. cbn [char_eqb N.eqb Pos.eqb andb].
  unfold no_break in *. rewrite !forallb_app, !andb_true_iff.
  repeat split; solve [assumption | reflexivity].
Qed.

(** X10: reading back what was written: for books that can be written on
    one line each (no tab and no line break in a field, a title that does
    not start with white space, a call number that does not end with white
    space, neither of the two empty), the text written for each book is one
    line of the file, and [read_books] on these lines returns the books, in
    order. *)
Theorem read_books_round_trip bs :
  forallb writable bs = true ->
  forallb one_line (map format_line bs) = true /\
  read_books (map format_line bs) = ret bs.
Proof.
  intros H. rewrite forallb_forall in H. split.
  { apply forallb_forall. intros l Hl. apply in_map_iff in Hl.
    destruct Hl as (b & <- & Hb). apply one_line_format_line, H, Hb. }
  assert (F : forall b, In b bs ->
                fields (format_line b) = [title b; author b; callnum b])
    by (intros b Hb; apply fields_format_line; auto).
  unfold read_books. rewrite read_lines_ok.
  - simpl app. f_equal. rewrite map_map.
    rewrite <- (map_id bs) at 2. apply map_ext_in.
    intros b Hb. unfold book_of_line. rewrite (F b Hb).
    now destruct b.
  - rewrite Forall_forall. intros l Hl. apply in_map_iff in Hl.
    destruct Hl as (b & <- & Hb). rewrite (F b Hb). simpl. lia.
Qed.

Lemma read_books_round_trip_witness :
  let bs := [ mkBook (lit "QA76.73.P98 L87 2013") (lit "Learning Python")
                     (lit "Lutz, Mark");
              mkBook (lit "not a call number") (lit "T") [] ] in
  forallb one_line (map format_line bs) = true /\
  read_books (map format_line bs) = ret bs.
Proof.
  intros bs. apply read_books_round_trip. vm_compute. reflexivity.
Defined.

(** ** The whole program *)

Lemma diags_only b : Forall (eq (lit "invalid call number")) (diags b).
Proof. unfold diags. destruct (matches b); repeat constructor. Qed.

Lemma stdout_lt a b : stdout (Book.__lt__ a b) = diags a ++ diags b.
Proof. now rewrite lt_full. Qed.

Lemma outcome_lt a b :
  outcome (Book.__lt__ a b) =
  if matches a && matches b then Ok (before a b) else Raise TypeError.
Proof. now rewrite lt_full. Qed.

Lemma insert_prints x : forall l,
  Forall (eq (lit "invalid call number")) (stdout (insert Book.__lt__ x l)) /\
  (forall e, outcome (insert Book.__lt__ x l) = Raise e ->
             stdout (insert Book.__lt__ x l) <> []).
Proof.
  induction l as [|y l [IH1 IH2]].
  - split; [constructor|]. intros e H. discriminate H.
  - rewrite insert_cons, stdout_bind, stdout_lt.
    destruct (outcome (Book.__lt__ y x)) as [b|e'] eqn:Ho.
    + rewrite (outcome_bind_ok _ _ b Ho).
      assert (Hd : diags y ++ diags x = []).
      { rewrite outcome_lt in Ho. unfold diags.
        destruct (matches y), (matches x); try discriminate Ho.
        reflexivity. }
      rewrite Hd. simpl app.
      destruct b; [|split; [constructor|intros e H; discriminate H]].
      rewrite stdout_bind.
      destruct (outcome (insert Book.__lt__ x l)) as [r|e'] eqn:Hi.
      * rewrite (outcome_bind_ok _ _ r Hi). simpl. rewrite app_nil_r.
        split; [exact IH1|]. intros e H. discriminate H.
      * rewrite app_nil_r. split; [exact IH1|]. intros e _.
        now apply (IH2 e').
    + rewrite app_nil_r. split.
      * apply Forall_app. split; apply diags_only.
      * intros e _. rewrite outcome_lt in Ho. unfold diags.
        destruct (matches y), (matches x); try discriminate Ho;
          discriminate.
Qed.

Lemma sorted_prints : forall l,
  Forall (eq (lit "invalid call number")) (stdout (sorted Book.__lt__ l)) /\
  (forall e, outcome (sorted Book.__lt__ l) = Raise e ->
             stdout (sorted Book.__lt__ l) <> []).
Proof.
  induction l as [|x l [IH1 IH2]].
  - split; [constructor|]. intros e H. discriminate H.
  - rewrite sorted_cons, stdout_bind.
    destruct (outcome (sorted Book.__lt__ l)) as [s|e'] eqn:Ho.
    + rewrite (outcome_bind_ok _ _ s Ho).
      destruct (insert_prints x s) as [I1 I2]. split.
      * apply Forall_app. split; assumption.
      * intros e H E. apply app_eq_nil in E. destruct E as [_ E].
        now apply (I2 e).
    + rewrite app_nil_r. split; [exact IH1|]. intros e _. now apply (IH2 e').
Qed.

Lemma sorted_matching_lt l :
  Forall (fun b => matches b = true) l ->
  exists out,
    sorted Book.__lt__ l = ret out /\ Permutation l out /\
    StronglySorted (fun u v => Book.__lt__ v u = ret false) out.
Proof.
  intros Hm. destruct (sorted_matching l Hm) as (out & Hs & Hp & Ho).
  exists out. split; [exact Hs|]. split; [exact Hp|].
  assert (Hmo : Forall (fun b => matches b = true) out).
  { rewrite Forall_forall in *. intros z Hz. apply Hm.
    now apply (Permutation_in _ (Permutation_sym Hp)). }
  clear Hs Hp. induction Ho as [|u l' Hl IH Hu]; constructor.
  - apply IH. now inversion Hmo.
  - inversion Hmo as [|? ? Mu Ml]; subst.
    rewrite Forall_forall in *. intros v Hv.
    rewrite (lt_before v u) by auto.
    specialize (Hu v Hv). unfold not_after in Hu. rewrite Hu. reflexivity.
Qed.

(** X11: on a file whose lines all have three fields or more and call
    numbers that match, [main] raises nothing and prints exactly one line
    per record, the [repr] of the records in an order in which no record is
    before an earlier one. *)
Theorem main_well_formed f :
  Forall (fun l => 3 <= length (fields l)) f ->
  Forall (fun l => matches (book_of_line l) = true) f ->
  exists out,
    main f = (map Book.__repr__ out, Ok tt) /\
    Permutation (map book_of_line f) out /\
    StronglySorted (fun u v => Book.__lt__ v u = ret false) out.
Proof.
  intros Hf Hm.
  destruct (sorted_matching_lt (map book_of_line f)) as (out & Hs & Hp & Ho).
  { rewrite Forall_forall in *. intros b Hb. apply in_map_iff in Hb.
    destruct Hb as (l & <- & Hl). now apply Hm. }
  exists out. split; [|split; assumption].
  unfold main, read_books. rewrite read_lines_ok by exact Hf.
  simpl app. rewrite bind_ret. unfold print_books.
  rewrite Hs, bind_ret. apply print_each_repr.
Qed.

Lemma main_well_formed_witness :
  let f := [ lit "Python Crash Course" ++ [0x09%N] ++ lit "Matthes, Eric" ++
             [0x09%N] ++ lit "QA76.73.P98 M37 2019" ++ [0x0A%N];
             lit "Learning Python" ++ [0x09%N] ++ lit "Lutz, Mark" ++
             [0x09%N] ++ lit "QA76.73.P98 L87 2013" ++ [0x0A%N] ] in
  exists out,
    main f = (map Book.__repr__ out, Ok tt) /\
    Permutation (map book_of_line f) out /\
    StronglySorted (fun u v => Book.__lt__ v u = ret false) out.
Proof.
  intros f. apply main_well_formed.
  - repeat constructor; vm_compute; lia.
  - repeat constructor; vm_compute; reflexivity.
Defined.

(** X12: when some line has fewer than three fields, [main] raises
    [IndexError] before anything is sorted: nothing is printed, not even
    the records of the lines before it. *)
Theorem main_short_line f :
  Exists (fun l => length (fields l) < 3) f ->
  main f = ([], Raise IndexError).
Proof.
  intros H. apply Exists_exists in H. destruct H as (line & Hin & Hl).
  unfold main. rewrite (short_line_in f line Hin Hl). reflexivity.
Qed.

Lemma main_short_line_witness :
  main [ lit "Learning Python" ++ [0x09%N] ++ lit "Lutz, Mark" ++ [0x09%N] ++
         lit "QA76.73.P98 L87 2013" ++ [0x0A%N];
         lit "Python Crash Course" ++ [0x09%N] ++ lit "QA76.73.P98 M37" ] =
  ([], Raise IndexError).
Proof.
  apply main_short_line. apply Exists_cons_tl, Exists_cons_hd.
  vm_compute. lia.
Defined.

(** X13: on a file of two records or more, all of three fields or more,
    one of which has a call number that does not match, [main] raises
    [TypeError] and prints no record at all: what it prints is one or more
    lines "invalid call number" and nothing else. *)
Theorem main_invalid_call_number f :
  2 <= length f ->
  Forall (fun l => 3 <= length (fields l)) f ->
  Exists (fun l => matches (book_of_line l) = false) f ->
  outcome (main f) = Raise TypeError /\
  stdout (main f) <> [] /\
  Forall (eq (lit "invalid call number")) (stdout (main f)).
Proof.
  intros Hlen Hf Hex.
  unfold main, read_books. rewrite read_lines_ok by exact Hf.
  simpl app. rewrite bind_ret. unfold print_books.
  assert (Hr : outcome (sorted Book.__lt__ (map book_of_line f)) =
               Raise TypeError).
  { apply sorted_unmatched; [now rewrite length_map|].
    apply Exists_exists in Hex. destruct Hex as (l & Hl & Hn).
    exists (book_of_line l). split; [now apply in_map|exact Hn]. }
  destruct (sorted_prints (map book_of_line f)) as [P1 P2].
  rewrite stdout_bind, Hr, app_nil_r.
  split; [now apply outcome_bind_raise|]. split; [now apply (P2 TypeError)|].
  exact P1.
Qed.

Lemma main_invalid_call_number_witness :
  let f := [ lit "Learning Python" ++ [0x09%N] ++ lit "Lutz, Mark" ++
             [0x09%N] ++ lit "QA76.73.P98 L87 2013" ++ [0x0A%N];
             lit "Python Crash Course" ++ [0x09%N] ++ lit "Matthes, Eric" ++
             [0x09%N] ++ lit "qa76.73.P98 M37 2019" ++ [0x0A%N] ] in
  outcome (main f) = Raise TypeError /\
  stdout (main f) <> [] /\
  Forall (eq (lit "invalid call number")) (stdout (main f)).
Proof.
  intros f. apply main_invalid_call_number.
  - simpl. lia.
  - repeat constructor; vm_compute; lia.
  - apply Exists_cons_tl, Exists_cons_hd. vm_compute. reflexivity.
Defined.

(** ** What the sort returns *)

Lemma keys_eqb_eq a : forall b, keys_eqb a b = true <-> a = b.
Proof.
  induction a as [|x a IH]; intros [|y b]; simpl; split; intros H;
    try discriminate; auto.
  - apply andb_true_iff in H. destruct H as [Hx Ha].
    apply key_eqb_eq in Hx. apply IH in Ha. congruence.
  - injection H as -> ->. apply andb_true_iff. split.
    + now apply key_eqb_eq.
    + now apply IH.
Qed.

Lemma keys_injective (l : list Book) :
  NoDup (map book_keys l) ->
  forall x y, In x l -> In y l -> book_keys x = book_keys y -> x = y.
Proof.
  induction l as [|z l IH]; intros Hn x y Hx Hy E; [destruct Hx|].
  simpl in Hn. inversion Hn as [|? ? Hz Hn']; subst.
  destruct Hx as [->|Hx], Hy as [->|Hy]; auto.
  - exfalso. apply Hz. rewrite E. now apply in_map.
  - exfalso. apply Hz. rewrite <- E. now apply in_map.
Qed.

(** Two sorted lists with the same books, no two of them unordered, are
    the same list. *)
Lemma sorted_unique l1 : forall l2,
  StronglySorted not_after l1 -> StronglySorted not_after l2 ->
  Permutation l1 l2 ->
  (forall x y, In x l1 -> In y l1 ->
               not_after x y -> not_after y x -> x = y) ->
  l1 = l2.
Proof.
  induction l1 as [|x l1 IH]; intros l2 S1 S2 P A.
  - apply Permutation_nil in P. now subst.
  - destruct l2 as [|y l2].
    { apply Permutation_sym, Permutation_nil in P. discriminate P. }
    inversion S1 as [|? ? S1' F1]; subst.
    inversion S2 as [|? ? S2' F2]; subst.
    rewrite Forall_forall in F1, F2.
    assert (Hx : In x (y :: l2)) by (apply (Permutation_in _ P); now left).
    assert (Hy : In y (x :: l1))
      by (apply (Permutation_in _ (Permutation_sym P)); now left).
    assert (E : x = y).
    { destruct Hx as [Hx|Hx]; [now symmetry|].
      destruct Hy as [Hy|Hy]; [exact Hy|].
      apply A; [now left|now right|now apply F1|now apply F2]. }
    subst y. f_equal. apply IH; auto.
    + now apply Permutation_cons_inv in P.
    + intros u v Hu Hv. apply A; now right.
Qed.

(** X14: the order of the input does not matter when no two books have
    the same keys: two collections of books with matching call numbers that
    are permutations of each other sort to the same list. *)
Theorem sort_ignores_input_order bs bs' :
  Forall (fun b => matches b = true) bs ->
  NoDup (map book_keys bs) ->
  Permutation bs bs' ->
  sorted Book.__lt__ bs = sorted Book.__lt__ bs'.
Proof.
  intros Hm Hn Hp.
  assert (Hm' : Forall (fun b => matches b = true) bs').
  { rewrite Forall_forall in *. intros z Hz. apply Hm.
    now apply (Permutation_in _ (Permutation_sym Hp)). }
  destruct (sorted_matching bs Hm) as (out & -> & P & S).
  destruct (sorted_matching bs' Hm') as (out' & -> & P' & S').
  f_equal. f_equal. apply sorted_unique; auto.
  - now rewrite <- P, Hp.
  - intros x y Hx Hy Nxy Nyx.
    apply (Permutation_in _ (Permutation_sym P)) in Hx, Hy.
    apply (keys_injective bs Hn); auto.
    rewrite Forall_forall in Hm.
    apply before_total; auto.
Qed.

Lemma sort_ignores_input_order_witness :
  let l87 := mkBook (lit "QA76.73.P98 L87 2013") (lit "Learning Python")
                    (lit "Lutz, Mark") in
  let m37 := mkBook (lit "QA76.73.P98 M37 2019") (lit "Python Crash Course")
                    (lit "Matthes, Eric") in
  sorted Book.__lt__ [m37; l87] = sorted Book.__lt__ [l87; m37].
Proof.
  intros l87 m37. apply sort_ignores_input_order.
  - repeat constructor; vm_compute; reflexivity.
  - repeat constructor; vm_compute; intuition discriminate.
  - apply perm_swap.
Defined.

Lemma with_keys_cons k x l :
  with_keys k (x :: l) =
  (if keys_eqb k (book_keys x) then [x] else []) ++ with_keys k l.
Proof.
  unfold with_keys. simpl. now destruct (keys_eqb k (book_keys x)).
Qed.

Lemma insert_stable k x : forall l,
  matches x = true -> Forall (fun b => matches b = true) l ->
  exists out,
    insert Book.__lt__ x l = ret out /\
    with_keys k out = with_keys k (x :: l) /\
    Forall (fun b => matches b = true) out.
Proof.
  induction l as [|y l IH]; intros Hx Hl.
  - exists [x]. repeat split; auto.
  - inversion Hl as [|? ? Hy Hl']; subst.
    rewrite insert_cons, (lt_before _ _ Hy Hx), bind_ret.
    destruct (before y x) eqn:E.
    + destruct (IH Hx Hl') as (out & -> & Hk & Ho).
      rewrite bind_ret. exists (y :: out). split; [reflexivity|].
      split; [|now constructor].
      rewrite (with_keys_cons k y out), Hk, !with_keys_cons.
      destruct (keys_eqb k (book_keys y)) eqn:Ky;
        destruct (keys_eqb k (book_keys x)) eqn:Kx; try reflexivity.
      apply keys_eqb_eq in Ky, Kx.
      assert (K : book_keys y = book_keys x) by congruence.
      rewrite (before_same_keys _ _ K) in E. discriminate E.
    + exists (x :: y :: l). repeat split; auto.
Qed.

Lemma sorted_stable k : forall l,
  Forall (fun b => matches b = true) l ->
  exists out,
    sorted Book.__lt__ l = ret out /\
    with_keys k out = with_keys k l /\
    Forall (fun b => matches b = true) out.
Proof.
  induction l as [|x l IH]; intros Hl.
  - exists []. repeat split; auto.
  - inversion Hl as [|? ? Hx Hl']; subst.
    destruct (IH Hl') as (s & Hs & Hk & Hm).
    destruct (insert_stable k x s Hx Hm) as (out & Hi & Hk' & Hm').
    exists out. rewrite sorted_cons, Hs, bind_ret. split; [exact Hi|].
    split; [|exact Hm'].
    rewrite Hk', !with_keys_cons, Hk. reflexivity.
Qed.

(** X15: the sort keeps books with equal keys in their input order: in
    the sorted list the books of any given four keys come in the order in
    which the input has them. *)
Theorem sort_keeps_input_order_of_equals bs :
  Forall (fun b => matches b = true) bs ->
  exists out,
    sorted Book.__lt__ bs = ret out /\
    forall k, with_keys k out = with_keys k bs.
Proof.
  intros Hm.
  destruct (sorted_matching bs Hm) as (out & Hs & _).
  exists out. split; [exact Hs|]. intros k.
  destruct (sorted_stable k bs Hm) as (out' & Hs' & Hk & _).
  rewrite Hs in Hs'. apply ret_inj in Hs'. now subst.
Qed.

Lemma sort_keeps_input_order_of_equals_witness :
  let b1 := mkBook (lit "QA76.73.P98 L87") (lit "second copy") [] in
  let b2 := mkBook (lit "QA 76.73. P98 L87") (lit "first copy") [] in
  let b0 := mkBook (lit "QA76.73.C15") (lit "other") [] in
  exists out,
    sorted Book.__lt__ [b1; b0; b2] = ret out /\
    forall k, with_keys k out = with_keys k [b1; b0; b2].
Proof.
  intros b1 b2 b0. apply sort_keeps_input_order_of_equals.
  repeat constructor; vm_compute; reflexivity.
Defined.

(** ** A newline after the call number *)

Lemma takes_Eol_newline : takes Eol [] [0x0A%N] [].
Proof.
  intros A n m k a Hk. simpl in *. now rewrite Nat.add_0_r in Hk.
Qed.

Lemma starts_with_nonempty p (l s : str) :
  l <> [] -> starts_with p (l ++ s) = starts_with p l.
Proof. destruct l; [congruence|reflexivity]. Qed.

Lemma year_starts y s :
  digits 4 4 y = true ->
  y <> [] /\ starts_with isspace (y ++ s) = false /\
  starts_with isupper_AZ (y ++ s) = false.
Proof.
  intros H. destruct (digits_nonempty _ _ _ H) as (x & xs & -> & Hx & _).
  simpl. repeat split; [discriminate|now apply decimal_not_space|
                        now apply decimal_not_upper].
Qed.

Lemma takes_year_newline y :
  digits 4 4 y = true ->
  takes (Opt re_year +++ Eol) (y ++ []) [0x0A%N]
        ([] ++ [("year"%string, y)]).
Proof.
  intros Hy. apply digits_elim in Hy. destruct Hy as [Hd Hl].
  apply (takes_Cat _ _ y [] [0x0A%N]); [|apply takes_Eol_newline].
  apply takes_Opt, takes_Grp. apply takes_Rep; simpl; auto; try lia.
Qed.

(** The end of the pattern on a year followed by a newline. *)
Lemma takes_tail_newline w3 e w4 y :
  forallb isspace w3 = true -> opt_ok is_cutter e = true ->
  forallb isspace w4 = true -> digits 4 4 y = true ->
  (e <> None -> w4 <> []) ->
  takes re_tail (w3 ++ opt_text e ++ w4 ++ y) [0x0A%N]
        ([("year"%string, y)] ++
         match e with Some x => [("extracutter"%string, x)] | None => [] end).
Proof.
  intros H3 He H4 Hy Hsep. unfold re_tail.
  destruct (year_starts y [0x0A%N] Hy) as (Yne & Ysp & Yup).
  pose proof (takes_year_newline y Hy) as Hend.
  destruct e as [e|]; simpl opt_text.
  - simpl in He.
    eapply takes_eq.
    + apply (takes_Cat _ _ w3 (e ++ w4 ++ y ++ []) [0x0A%N] []).
      { apply takes_Rep; simpl; auto; [lia|]. left.
        rewrite <- app_assoc. now apply cutter_starts. }
      apply (takes_Cat _ _ e (w4 ++ y ++ []) [0x0A%N]).
      { apply takes_Opt, takes_Grp. apply takes_cutter; auto.
        destruct w4 as [|w w4]; [now destruct Hsep|].
        simpl in *. apply andb_true_iff in H4. destruct H4 as [Hw _].
        now apply space_not_decimal. }
      apply (takes_Cat _ _ w4 (y ++ []) [0x0A%N] []).
      { apply takes_Rep; simpl; auto; [lia|]. left.
        now rewrite app_nil_r. }
      exact Hend.
    + now rewrite !app_nil_r.
    + simpl. reflexivity.
  - eapply takes_eq.
    + apply (takes_Cat _ _ (w3 ++ w4) ([] ++ [] ++ y ++ []) [0x0A%N] []).
      { apply takes_Rep; simpl; auto; [|lia|].
        - rewrite forallb_app. change (in_class Space) with isspace.
          now rewrite H3, H4.
        - left. now rewrite app_nil_r. }
      apply (takes_Cat _ _ [] ([] ++ y ++ []) [0x0A%N] []).
      { apply takes_Opt_skip, refuses_Grp, refuses_cutter.
        simpl. now rewrite app_nil_r. }
      apply (takes_Cat _ _ [] (y ++ []) [0x0A%N] []).
      { apply takes_Rep; simpl; auto. left. now rewrite app_nil_r. }
      exact Hend.
    + simpl. now rewrite !app_nil_r, <- app_assoc.
    + simpl. reflexivity.
Qed.

(** The match on pieces with a year, followed by a newline. *)
Lemma match_pieces_year_newline c y :
  wf c = true -> year_set_off c = true -> cn_year c = Some y ->
  re_match Book.pattern (text c ++ [0x0A%N]) = Some (groups_of c).
Proof.
  intros Hwf Hoff Ey.
  destruct (wf_elim _ Hwf) as (Hcut & He & Hy & Hcls & Hne).
  destruct (wf_subject _ Hwf) as (H0 & Hd & Hf & H1 & H2).
  destruct (wf_spaces _ Hwf) as [H3 H4].
  destruct (digits_nonempty _ _ _ Hd) as (x & xs & Ed & Hx & _).
  rewrite Ey in Hy. simpl in Hy.
  pose proof (tail_not_digit c Hwf Hoff) as Htl.
  pose (tl := cn_ws3 c ++ opt_text (cn_extra c) ++ cn_ws4 c ++
              opt_text (cn_year c)).
  fold tl in Htl.
  assert (Tne : tl <> []).
  { unfold tl. rewrite Ey. simpl opt_text.
    destruct (year_starts y [] Hy) as (Yne & _).
    intros E. apply app_eq_nil in E. destruct E as [_ E].
    apply app_eq_nil in E. destruct E as [_ E].
    apply app_eq_nil in E. destruct E as [_ E]. contradiction. }
  assert (T : takes
            (Grp "class" (Rep Upper 1 None)
             +++ Grp "subject" re_subject
             +++ Rep Space 0 None
             +++ Grp "cutter" re_cutter
             +++ re_tail)
            (text c) [0x0A%N] (groups_of c)).
  { eapply takes_eq.
    - apply (takes_Cat _ _ (cn_class c)
               ((cn_ws0 c ++ subject_text c) ++ cn_ws2 c ++ cn_cutter c ++ tl)
               [0x0A%N]).
      { apply takes_Grp. apply takes_Rep; simpl; auto.
        - destruct (cn_class c); [congruence|simpl; lia].
        - left. rewrite <- !app_assoc.
          apply (starts_with_app isupper_AZ isspace);
            auto using space_not_upper.
          unfold subject_text. rewrite Ed. simpl.
          now apply decimal_not_upper. }
      apply (takes_Cat _ _ (cn_ws0 c ++ subject_text c)
               (cn_ws2 c ++ cn_cutter c ++ tl) [0x0A%N]).
      { apply takes_Grp. apply takes_subject; auto.
        rewrite <- !app_assoc.
        apply (starts_with_app isdecimal isspace);
          auto using space_not_decimal.
        now apply cutter_starts. }
      apply (takes_Cat _ _ (cn_ws2 c) (cn_cutter c ++ tl) [0x0A%N] []).
      { apply takes_Rep; simpl; auto; [lia|]. left.
        rewrite <- app_assoc. now apply cutter_starts. }
      apply (takes_Cat _ _ (cn_cutter c) tl [0x0A%N]).
      { apply takes_Grp. apply takes_cutter; auto.
        now rewrite starts_with_nonempty. }
      unfold tl. rewrite Ey. simpl opt_text.
      apply takes_tail_newline; auto.
      intros Ne. unfold year_set_off, before_year in Hoff.
      rewrite Ey in Hoff.
      destruct (cn_extra c); [|congruence].
      intros E. rewrite E in Hoff. discriminate Hoff.
    - unfold text, tl. rewrite Ey. simpl opt_text.
      now rewrite <- !app_assoc.
    - unfold groups_of. rewrite Ey. simpl. now rewrite <- !app_assoc. }
  unfold re_match. rewrite pattern_eq, exec_Bol.
  apply (T _ 0 []). simpl. now rewrite app_nil_r.
Qed.

(** X16: one newline after the call number changes nothing: a string
    written from well-formed pieces, with its year set off by white space,
    and followed by a newline, parses to the same tuple as without the
    newline. *)
Theorem final_newline_ignored c t a :
  wf c = true -> year_set_off c = true ->
  Book.call_num_parse (mkBook (text c ++ [0x0A%N]) t a) =
  ret (Some (pieces c)).
Proof.
  intros Hwf Hoff.
  destruct (cn_year c) as [y|] eqn:Ey.
  - apply parse_of_groups; [exact Hwf|].
    now apply (match_pieces_year_newline c y).
  - (* without a year the newline is more white space *)
    pose (c' := mkCallno (cn_class c) (cn_ws0 c) (cn_int c) (cn_frac c)
                         (cn_ws1 c) (cn_ws2 c) (cn_cutter c) (cn_ws3 c)
                         (cn_extra c) (cn_ws4 c ++ [0x0A%N]) None).
    assert (Hwf' : wf c' = true).
    { unfold wf in *. rewrite Ey in Hwf. simpl. rewrite forallb_app.
      rewrite !andb_true_iff in *. simpl. tauto. }
    assert (Et : text c ++ [0x0A%N] = text c').
    { unfold text, subject_text. rewrite Ey. simpl.
      now rewrite !app_nil_r, <- !app_assoc. }
    assert (Ep : pieces c = pieces c').
    { unfold pieces, subject_text. rewrite Ey. reflexivity. }
    rewrite Et, Ep. apply parse_pieces; [exact Hwf'|reflexivity].
Qed.

Lemma final_newline_ignored_witness :
  let c := mkCallno (lit "QA") [] (lit "76") (Some (lit "73")) [] []
                    (lit "C15") (lit " ") (Some (lit "B73")) (lit " ")
                    (Some (lit "2019")) in
  Book.call_num_parse (mkBook (text c ++ [0x0A%N]) [] []) =
  ret (Some (pieces c)).
Proof.
  intros c. apply final_newline_ignored; vm_compute; reflexivity.
Defined.

(** ** The printed line *)

(** X17: the line printed for a book tells the book: two books whose call
    numbers and titles hold no double quote and whose [repr] is the same
    have the same call number, title and author. *)
Theorem repr_injective b b' :
  no_quote (callnum b) = true -> no_quote (title b) = true ->
  no_quote (callnum b') = true -> no_quote (title b') = true ->
  Book.__repr__ b = Book.__repr__ b' -> b = b'.
Proof.
  intros Hc Ht Hc' Ht' E. unfold Book.__repr__ in E.
  apply app_inv_head in E. apply app_inv_head in E.
  apply (span_eq (fun c => negb (char_eqb c 0x22%N))) in E;
    [|assumption|assumption|reflexivity|reflexivity].
  destruct E as [Ec E].
  apply app_inv_head in E. apply app_inv_head in E. apply app_inv_head in E.
  apply (span_eq (fun c => negb (char_eqb c 0x22%N))) in E;
    [|assumption|assumption|reflexivity|reflexivity].
  destruct E as [Et E].
  apply app_inv_head in E. apply app_inv_head in E. apply app_inv_head in E.
  rewrite !app_assoc in E. apply app_inv_tail in E. apply app_inv_tail in E.
  destruct b, b'. simpl in *. congruence.
Qed.

Lemma repr_injective_witness :
  let b := mkBook (lit "QA76.73.P98 L87 2013") (lit "Learning Python")
                  (lit "Lutz, Mark") in
  b = b.
Proof.
  intros b. apply repr_injective; reflexivity.
Defined.
